(** * Entitlement ledger of the affine server

    A shallow embedding of the feature/quota activation model of
    [packages/backend/server]: the compiled-in catalog
    ([core/features/types]), the quota service ([core/quota/service.ts])
    and the ledger part of the user service ([core/user/service.ts]).

    The persistent store is a value of type [Db]; every service method is a
    function from a store to a store and a result.  A method that throws
    returns [Err]; [transaction] is Prisma's interactive transaction, which
    commits the writes of its body when the body returns and discards them
    when the body throws. *)

From stdpp Require Import base option list gmap strings sorting.
From Stdlib Require Import ZArith Lia Ascii.

Local Open Scope Z_scope.

(** ** Data model *)

(** [core/features/types/index.ts]: [enum FeatureKind { Feature, Quota }]. *)
Module FeatureKind.
Inductive t : Set := Feature | Quota.

#[global] Instance eq_dec : EqDecision t.
Proof. solve_decision. Defined.
End FeatureKind.

(** [core/features/types/common.ts]: the string enum [FeatureType]. *)
Module FeatureType.
Inductive t : Set :=
| Admin | EarlyAccess | AIEarlyAccess | UnlimitedCopilot
| UnlimitedWorkspace | PersonalWorkspace | TeamWorkspace | Copilot.

Definition value (x : t) : string :=
  match x with
  | Admin => "administrator"
  | EarlyAccess => "early_access"
  | AIEarlyAccess => "ai_early_access"
  | UnlimitedCopilot => "unlimited_copilot"
  | UnlimitedWorkspace => "unlimited_workspace"
  | PersonalWorkspace => "personal_workspace"
  | TeamWorkspace => "team_workspace"
  | Copilot => "copilot"
  end.

#[global] Instance eq_dec : EqDecision t.
Proof. solve_decision. Defined.
End FeatureType.

(** The enum [UserGroup] of [core/user/types]: the three groups
    [fulfillUser] names, and one member for any other value. *)
Module UserGroup.
Inductive t : Set := Admin | TeamLead | User | Other.
End UserGroup.

(** The [configs] payload of a definition: a JSON object, as the list of its
    keys and values. *)
Inductive ConfigValue : Set :=
| CNum (n : Z)
| CStr (s : string)
| CStrings (l : list string).

Definition Configs : Set := list (string * ConfigValue).

Fixpoint config_get (key : string) (c : Configs) : option ConfigValue :=
  match c with
  | [] => None
  | (k, v) :: rest => if decide (k = key) then Some v else config_get key rest
  end.

(** [CommonFeature]: one definition of the catalog, and one row of the
    [feature] table once it has an id. *)
Record CommonFeature : Set := mkFeature {
  f_feature : string;
  f_type : FeatureKind.t;
  f_version : Z;
  f_configs : Configs;
}.

(** One row of the [userFeature] table: an activation record. *)
Record UserFeature : Set := mkUserFeature {
  uf_id : Z;
  uf_userId : string;
  uf_featureId : Z;
  uf_reason : string;
  uf_createdAt : Z;
  uf_expiredAt : option Z;
  uf_activated : bool;
}.

#[global] Instance UserFeature_eq_dec : EqDecision UserFeature.
Proof. solve_decision. Defined.

(** One row of the [users] table. *)
Record UserRow : Set := mkUser {
  u_id : string;
  u_name : string;
  u_email : string;
  u_password : option string;
  u_emailVerifiedAt : option Z;
  u_avatarUrl : option string;
  u_registered : bool;
  u_createdAt : Z;
}.

(** The store.  The [feature] table is keyed by its primary key; the
    [userFeature] and [users] tables are kept in insertion order. *)
Record Db : Type := mkDb {
  features : gmap Z CommonFeature;
  userFeatures : list UserFeature;
  users : list UserRow;
}.

Definition set_userFeatures (l : list UserFeature) (db : Db) : Db :=
  {| features := features db; userFeatures := l; users := users db |}.

Definition set_features (m : gmap Z CommonFeature) (db : Db) : Db :=
  {| features := m; userFeatures := userFeatures db; users := users db |}.

Definition set_users (l : list UserRow) (db : Db) : Db :=
  {| features := features db; userFeatures := userFeatures db; users := l |}.

(** ** Errors and the store monad *)

Inductive Error : Set :=
| UserHasNoQuota (userId : string)     (* `User ${userId} has no quota` *)
| QuotaNotFound (quota : string)       (* `Quota ${quota} not found` *)
| FeatureNotFound (feature : string)   (* `Feature ${feature} not found` *)
| DefinitionNotFound (featureId : Z)   (* thrown by QuotaConfig.get *)
| InvalidEmail
| InvalidPassword
| EmailAlreadyUsed
| UniqueConstraintFailed (field : string)
| RecordToUpdateNotFound.

Inductive Result (A : Type) : Type :=
| Ok (a : A)
| Err (e : Error).
Arguments Ok {A} a.
Arguments Err {A} e.

Definition is_Ok {A} (r : Result A) : Prop :=
  match r with Ok _ => True | Err _ => False end.

#[global] Instance is_Ok_dec {A} (r : Result A) : Decision (is_Ok r).
Proof. destruct r; simpl; apply _. Defined.

(** An asynchronous method on the store.  When it throws, the writes it
    made before are still in the store it returns: only [transaction]
    takes them back. *)
Definition Tx (A : Type) : Type := Db → Db * Result A.

Definition tx_ret {A} (a : A) : Tx A := λ db, (db, Ok a).

Definition tx_throw {A} (e : Error) : Tx A := λ db, (db, Err e).

Definition tx_bind {A B} (m : Tx A) (k : A → Tx B) : Tx B :=
  λ db, match m db with
        | (db', Ok a) => k a db'
        | (db', Err e) => (db', Err e)
        end.

Notation "'await' x <~ m ;; k" := (tx_bind m (λ x, k))
  (at level 10, x name, m at level 99, k at level 200).
Notation "'run' m ;; k" := (tx_bind m (λ _, k))
  (at level 10, m at level 99, k at level 200).

(** A read of the store. *)
Definition tx_read {A} (q : Db → A) : Tx A := λ db, (db, Ok (q db)).

(** A write to the store. *)
Definition tx_write (w : Db → Db) : Tx () := λ db, (w db, Ok ()).

(** [prisma.$transaction(async tx => body)]: all or nothing. *)
Definition transaction {A} (body : Tx A) : Tx A :=
  λ db, match body db with
        | (db', Ok a) => (db', Ok a)
        | (_, Err e) => (db, Err e)
        end.

(** ** The Prisma queries the services use *)

(** A relation filter [feature: { ... }] on an activation record: the
    definition row the record references satisfies [P]. *)
Definition feature_is (db : Db) (P : CommonFeature → Prop) (r : UserFeature) : Prop :=
  match features db !! uf_featureId r with
  | Some f => P f
  | None => False
  end.

#[global] Instance feature_is_dec db P `{∀ f, Decision (P f)} r :
  Decision (feature_is db P r).
Proof. unfold feature_is. destruct (features db !! uf_featureId r); apply _. Defined.

(** [userFeature.count({ where })]. *)
Definition userFeature_count (W : Db → UserFeature → Prop)
    `{∀ db r, Decision (W db r)} (db : Db) : nat :=
  length (filter (W db) (userFeatures db)).

(** [userFeature.findFirst({ where })]: the first matching row, in the
    order of the table. *)
Definition userFeature_findFirst (W : Db → UserFeature → Prop)
    `{∀ db r, Decision (W db r)} (db : Db) : option UserFeature :=
  head (filter (W db) (userFeatures db)).

(** [orderBy: { id: 'asc' }]. *)
Definition id_asc (a b : UserFeature) : Prop := uf_id a ≤ uf_id b.

#[global] Instance id_asc_dec a b : Decision (id_asc a b).
Proof. unfold id_asc. apply _. Defined.

(** [userFeature.findMany({ where, orderBy: { id: 'asc' } })]. *)
Definition userFeature_findMany_orderBy_id (W : Db → UserFeature → Prop)
    `{∀ db r, Decision (W db r)} (db : Db) : list UserFeature :=
  merge_sort id_asc (filter (W db) (userFeatures db)).

(** [userFeature.updateMany({ where, data: { activated: false } })]. *)
Definition deactivate (r : UserFeature) : UserFeature :=
  {| uf_id := uf_id r; uf_userId := uf_userId r; uf_featureId := uf_featureId r;
     uf_reason := uf_reason r; uf_createdAt := uf_createdAt r;
     uf_expiredAt := uf_expiredAt r; uf_activated := false |}.

Definition userFeature_deactivateMany (W : Db → UserFeature → Prop)
    `{∀ db r, Decision (W db r)} (db : Db) : Db :=
  set_userFeatures
    ((λ r, if decide (W db r) then deactivate r else r) <$> userFeatures db) db.

(** The autoincrement primary key of a new activation record: above every
    id in the table. *)
Definition next_userFeature_id (l : list UserFeature) : Z :=
  foldr Z.max 0 (uf_id <$> l) + 1.

(** [userFeature.create({ data })]; [createdAt] defaults to the time of the
    statement. *)
Definition userFeature_create (userId : string) (featureId : Z)
    (reason : string) (activated : bool) (expiredAt : option Z) (now : Z)
    (db : Db) : Db :=
  set_userFeatures
    (userFeatures db ++
       [ {| uf_id := next_userFeature_id (userFeatures db);
            uf_userId := userId; uf_featureId := featureId;
            uf_reason := reason; uf_createdAt := now;
            uf_expiredAt := expiredAt; uf_activated := activated |} ]) db.

(** [orderBy: { version: 'desc' }], on the rows of the [feature] table with
    their ids. *)
Definition version_desc (a b : Z * CommonFeature) : Prop :=
  f_version (snd b) ≤ f_version (snd a).

#[global] Instance version_desc_dec a b : Decision (version_desc a b).
Proof. unfold version_desc. apply _. Defined.

(** [feature.findFirst({ where, select: { id: true },
    orderBy: { version: 'desc' } }).then(f => f?.id)]. *)
Definition feature_findFirst_id (W : CommonFeature → Prop)
    `{∀ f, Decision (W f)} (db : Db) : option Z :=
  fst <$> head (merge_sort version_desc
                  (filter (λ p, W (snd p)) (map_to_list (features db)))).

(** ** [core/quota/service.ts] *)

(** [where: { feature: quota, type: FeatureKind.Quota }] on a definition. *)
Definition quota_definition (quota : string) (f : CommonFeature) : Prop :=
  f_feature f = quota ∧ f_type f = FeatureKind.Quota.

#[global] Instance quota_definition_dec quota f : Decision (quota_definition quota f).
Proof. unfold quota_definition. apply _. Defined.

(** The [where] clause of [hasQuota]. *)
Definition hasQuota_where (userId quota : string) (db : Db) (r : UserFeature) : Prop :=
  uf_userId r = userId
  ∧ feature_is db (quota_definition quota) r
  ∧ uf_activated r = true.

#[global] Instance hasQuota_where_dec userId quota db r :
  Decision (hasQuota_where userId quota db r).
Proof. unfold hasQuota_where. apply _. Defined.

Definition hasQuota (userId quota : string) (db : Db) : bool :=
  bool_decide (0 < userFeature_count (hasQuota_where userId quota) db)%nat.

(** [where: { userId, feature: { type: FeatureKind.Quota } }]: the clause
    of the [updateMany] of [switchUserQuota], where [id: undefined] is no
    condition, and of the [findMany] of [getUserQuotas]. *)
Definition userQuota_where (userId : string) (db : Db) (r : UserFeature) : Prop :=
  uf_userId r = userId ∧ feature_is db (λ f, f_type f = FeatureKind.Quota) r.

#[global] Instance userQuota_where_dec userId db r : Decision (userQuota_where userId db r).
Proof. unfold userQuota_where. apply _. Defined.

(** The body of the transaction of [switchUserQuota]. *)
Definition switchUserQuota_body (userId quota : string) (reason : option string)
    (expiredAt : option Z) (now : Z) : Tx () :=
  await hasSameActivatedQuota <~ tx_read (hasQuota userId quota) ;;
  if hasSameActivatedQuota : bool then
    (* don't need to switch *)
    tx_ret ()
  else
    await featureId <~ tx_read (feature_findFirst_id (quota_definition quota)) ;;
    match featureId with
    | None | Some 0 => tx_throw (QuotaNotFound quota)
    | Some featureId =>
        (* we will deactivate all exists quota for this user *)
        run tx_write (userFeature_deactivateMany (userQuota_where userId)) ;;
        tx_write (userFeature_create userId featureId
                    (default "switch quota" reason) true expiredAt now)
    end.

Definition switchUserQuota (userId quota : string) (reason : option string)
    (expiredAt : option Z) (now : Z) : Tx () :=
  transaction (switchUserQuota_body userId quota reason expiredAt now).

(** The store after the two writes of [switchUserQuota]. *)
Definition switched (userId : string) (featureId : Z) (reason : option string)
    (expiredAt : option Z) (now : Z) (db : Db) : Db :=
  userFeature_create userId featureId (default "switch quota" reason) true
    expiredAt now (userFeature_deactivateMany (userQuota_where userId) db).

(** What its [updateMany] makes of a record. *)
Definition switch_deactivate (userId : string) (db : Db) (r : UserFeature) : UserFeature :=
  if decide (userQuota_where userId db r) then deactivate r else r.

(** The record its [create] inserts. *)
Definition switch_record (userId : string) (featureId : Z) (reason : option string)
    (expiredAt : option Z) (now : Z) (db : Db) : UserFeature :=
  {| uf_id := next_userFeature_id (userFeatures db);
     uf_userId := userId; uf_featureId := featureId;
     uf_reason := default "switch quota" reason; uf_createdAt := now;
     uf_expiredAt := expiredAt; uf_activated := true |}.

(** *** The read side: [getUserQuota] and [getUserQuotas]

    Two names these methods use are parameters of the section below: the
    values of the enum [QuotaType] of [core/quota/types], that is
    [Object.values(QuotaType)], and [QuotaConfig.get] of
    [core/quota/quota], which resolves the id of a definition or throws. *)

(** What [getUserQuota] returns: [{ ...quota, feature }]. *)
Record ActiveQuota (C : Type) : Type := mkActiveQuota {
  aq_reason : string;
  aq_createdAt : Z;
  aq_expiredAt : option Z;
  aq_featureId : Z;
  aq_feature : C;
}.
Arguments mkActiveQuota {C}.
Arguments aq_reason {C}.
Arguments aq_createdAt {C}.
Arguments aq_expiredAt {C}.
Arguments aq_featureId {C}.
Arguments aq_feature {C}.

(** One element of what [getUserQuotas] returns. *)
Record QuotaRecord (C : Type) : Type := mkQuotaRecord {
  qr_activated : bool;
  qr_reason : string;
  qr_createdAt : Z;
  qr_expiredAt : option Z;
  qr_featureId : Z;
  qr_feature : C;
}.
Arguments mkQuotaRecord {C}.
Arguments qr_activated {C}.
Arguments qr_reason {C}.
Arguments qr_createdAt {C}.
Arguments qr_expiredAt {C}.
Arguments qr_featureId {C}.
Arguments qr_feature {C}.

(** A query that can throw and does not write. *)
Definition tx_query {A} (q : Db → Result A) : Tx A := λ db, (db, q db).

Section QuotaReads.
Variable QuotaTypeValues : list string.
Variable QuotaConfig : Type.
Variable QuotaConfig_get : Db → Z → Result QuotaConfig.

(** The [where] clause of [getUserQuota]. *)
Definition getUserQuota_where (userId : string) (db : Db) (r : UserFeature) : Prop :=
  uf_userId r = userId
  ∧ feature_is db (λ f, f_feature f ∈ QuotaTypeValues) r
  ∧ uf_activated r = true.

#[global] Instance getUserQuota_where_dec userId db r :
  Decision (getUserQuota_where userId db r).
Proof. unfold getUserQuota_where. apply _. Defined.

(* get activated user quota *)
Definition getUserQuota (userId : string) : Tx (ActiveQuota QuotaConfig) :=
  await quota <~ tx_read (userFeature_findFirst (getUserQuota_where userId)) ;;
  match quota with
  | None =>
      (* this should unreachable *)
      tx_throw (UserHasNoQuota userId)
  | Some quota =>
      await feature <~ tx_query (λ db, QuotaConfig_get db (uf_featureId quota)) ;;
      tx_ret (mkActiveQuota (uf_reason quota) (uf_createdAt quota)
                (uf_expiredAt quota) (uf_featureId quota) feature)
  end.

(** The callback of [quotas.map]: the record with its definition, or
    [null] when [QuotaConfig.get] throws. *)
Definition with_config (db : Db) (quota : UserFeature) : option (QuotaRecord QuotaConfig) :=
  match QuotaConfig_get db (uf_featureId quota) with
  | Ok feature =>
      Some (mkQuotaRecord (uf_activated quota) (uf_reason quota)
              (uf_createdAt quota) (uf_expiredAt quota) (uf_featureId quota) feature)
  | Err _ => None
  end.

(* get user all quota records *)
Definition getUserQuotas (userId : string) : Tx (list (QuotaRecord QuotaConfig)) :=
  await quotas <~ tx_read (userFeature_findMany_orderBy_id (userQuota_where userId)) ;;
  await configs <~ tx_read (λ db, with_config db <$> quotas) ;;
  (* configs.filter(quota => !!quota) *)
  tx_ret (omap id configs).
End QuotaReads.

(** Modelled from the spec: [QuotaConfig.get] of [core/quota/quota], whose
    source file is missing.  The spec's [resolve(definitionId)] fetches the
    definition by id and fails with [DefinitionNotFound] if it is absent or
    if its kind is not the one the caller expects, here [Quota]. *)
Definition QuotaConfig_get (db : Db) (featureId : Z) : Result CommonFeature :=
  match features db !! featureId with
  | Some f =>
      if decide (f_type f = FeatureKind.Quota) then Ok f
      else Err (DefinitionNotFound featureId)
  | None => Err (DefinitionNotFound featureId)
  end.

(** ** [core/user/service.ts] *)

(** [where: { feature, type: FeatureKind.Feature }] on a definition. *)
Definition feature_definition (feature : string) (f : CommonFeature) : Prop :=
  f_feature f = feature ∧ f_type f = FeatureKind.Feature.

#[global] Instance feature_definition_dec feature f :
  Decision (feature_definition feature f).
Proof. unfold feature_definition. apply _. Defined.

(** The [where] clause of the [findFirst] of [addUserFeatures]. *)
Definition addUserFeatures_where (userId feature : string) (db : Db)
    (r : UserFeature) : Prop :=
  uf_userId r = userId
  ∧ feature_is db (feature_definition feature) r
  ∧ uf_activated r = true.

#[global] Instance addUserFeatures_where_dec userId feature db r :
  Decision (addUserFeatures_where userId feature db r).
Proof. unfold addUserFeatures_where. apply _. Defined.

(** [orderBy: { createdAt: 'desc' }]. *)
Definition createdAt_desc (a b : UserFeature) : Prop :=
  uf_createdAt b ≤ uf_createdAt a.

#[global] Instance createdAt_desc_dec a b : Decision (createdAt_desc a b).
Proof. unfold createdAt_desc. apply _. Defined.

(** [userFeature.findFirst({ where, orderBy: { createdAt: 'desc' } })]. *)
Definition userFeature_findFirst_latest (W : Db → UserFeature → Prop)
    `{∀ db r, Decision (W db r)} (db : Db) : option UserFeature :=
  head (merge_sort createdAt_desc (filter (W db) (userFeatures db))).

(** The [for (const feature of features)] loop of [addUserFeatures].  No
    [create] of the services passes [createdAt]: the column takes its
    default, the time of the database when the statement runs.  [now] is
    the clock of a call: [now k] is that time in round [k] of the loop, so
    two records of one call can differ in [createdAt]. *)
Fixpoint addUserFeatures_loop (userId : string) (now : nat → Z)
    (features : list FeatureType.t) : Tx () :=
  match features with
  | [] => tx_ret ()
  | feature :: rest =>
      await latestFlag <~
        tx_read (userFeature_findFirst_latest
                   (addUserFeatures_where userId (FeatureType.value feature))) ;;
      match latestFlag with
      | Some _ =>
          (* continue *)
          addUserFeatures_loop userId (λ k, now (S k)) rest
      | None =>
          await featureId <~
            tx_read (feature_findFirst_id
                       (feature_definition (FeatureType.value feature))) ;;
          match featureId with
          | None | Some 0 => tx_throw (FeatureNotFound (FeatureType.value feature))
          | Some featureId =>
              run tx_write (userFeature_create userId featureId "sign up" true
                              None (now 0%nat)) ;;
              addUserFeatures_loop userId (λ k, now (S k)) rest
          end
      end
  end.

Definition addUserFeatures (userId : string) (features : list FeatureType.t)
    (now : nat → Z) : Tx () :=
  transaction (addUserFeatures_loop userId now features).

(** *** Accounts *)

(** [Omit<Partial<Prisma.UserCreateInput>, 'id'>]: a key is present when its
    field is [Some]. *)
Record UserData : Set := mkUserData {
  d_name : option string;
  d_email : option string;
  d_password : option string;
  d_emailVerifiedAt : option Z;
  d_avatarUrl : option string;
  d_registered : option bool;
}.

(** [CreateUserInput]: [email] is required. *)
Record CreateUserInput : Set := mkCreateUserInput {
  c_email : string;
  c_name : option string;
  c_password : option string;
  c_emailVerifiedAt : option Z;
  c_avatarUrl : option string;
  c_registered : option bool;
}.

Definition count_key {A} (o : option A) : nat :=
  match o with Some _ => 1%nat | None => 0%nat end.

(** [Object.keys(data).length]. *)
Definition Object_keys_length (d : UserData) : nat :=
  (count_key (d_name d) + count_key (d_email d) + count_key (d_password d)
   + count_key (d_emailVerifiedAt d) + count_key (d_avatarUrl d)
   + count_key (d_registered d))%nat.

(** [delete data.registered]. *)
Definition delete_registered (d : UserData) : UserData :=
  {| d_name := d_name d; d_email := d_email d; d_password := d_password d;
     d_emailVerifiedAt := d_emailVerifiedAt d; d_avatarUrl := d_avatarUrl d;
     d_registered := None |}.

(** [delete data.emailVerifiedAt]. *)
Definition delete_emailVerifiedAt (d : UserData) : UserData :=
  {| d_name := d_name d; d_email := d_email d; d_password := d_password d;
     d_emailVerifiedAt := None; d_avatarUrl := d_avatarUrl d;
     d_registered := d_registered d |}.

(** A string in a condition: the empty string is falsy. *)
Definition truthy_string (o : option string) : option string :=
  match o with
  | Some "" | None => None
  | Some s => Some s
  end.

(** [email.split('@')[0]]. *)
Fixpoint before_at (email : string) : string :=
  match email with
  | EmptyString => EmptyString
  | String c rest =>
      if Ascii.eqb c "@"%char then EmptyString else String c (before_at rest)
  end.

Definition lower_ascii (c : Ascii.ascii) : Ascii.ascii :=
  let n := Ascii.nat_of_ascii c in
  if ((65 <=? n) && (n <=? 90))%nat then Ascii.ascii_of_nat (n + 32) else c.

(** SQL [lower], on the letters A to Z. *)
Fixpoint lower (s : string) : string :=
  match s with
  | EmptyString => EmptyString
  | String c rest => String (lower_ascii c) (lower rest)
  end.

(** The columns of [defaultUserSelect] and of the raw queries by email:
    every column but the password. *)
Definition select_default (u : UserRow) : UserRow :=
  {| u_id := u_id u; u_name := u_name u; u_email := u_email u;
     u_password := None; u_emailVerifiedAt := u_emailVerifiedAt u;
     u_avatarUrl := u_avatarUrl u; u_registered := u_registered u;
     u_createdAt := u_createdAt u |}.

(** The row after [user.update({ data })]: the present keys are written. *)
Definition apply_data (d : UserData) (u : UserRow) : UserRow :=
  {| u_id := u_id u;
     u_name := default (u_name u) (d_name d);
     u_email := default (u_email u) (d_email d);
     u_password := from_option Some (u_password u) (d_password d);
     u_emailVerifiedAt := from_option Some (u_emailVerifiedAt u) (d_emailVerifiedAt d);
     u_avatarUrl := from_option Some (u_avatarUrl u) (d_avatarUrl d);
     u_registered := default (u_registered u) (d_registered d);
     u_createdAt := u_createdAt u |}.

(** [user.update({ where: { id }, data })].  It throws when no row has the
    id, and when the new email is the email of another row (the column is
    unique). *)
Definition user_update (id : string) (data : UserData) : Tx UserRow :=
  λ db,
    match filter (λ u, u_id u = id) (users db) with
    | [] => (db, Err RecordToUpdateNotFound)
    | u :: _ =>
        if decide (Exists (λ v, u_id v ≠ id ∧ Some (u_email v) = d_email data)
                     (users db))
        then (db, Err (UniqueConstraintFailed "email"))
        else (set_users ((λ v, if decide (u_id v = id) then apply_data data v else v)
                           <$> users db) db,
              Ok (apply_data data u))
    end.

(** [user.create({ select: defaultUserSelect, data })].  The id and the
    creation time are those the store gives the row. *)
Definition user_create (row : UserRow) : Tx UserRow :=
  λ db, (set_users (users db ++ [row]) db, Ok (select_default row)).

(** [where: { userId, activated: true }]: the clause of the [updateMany] of
    [fulfillUser]. *)
Definition activated_where (userId : string) (db : Db) (r : UserFeature) : Prop :=
  uf_userId r = userId ∧ uf_activated r = true.

#[global] Instance activated_where_dec userId db r :
  Decision (activated_where userId db r).
Proof. unfold activated_where. apply _. Defined.

(** The payload [fulfillUser] updates an account with: [registered] and
    [emailVerifiedAt] are deleted from it when the account has them. *)
Definition update_payload (user : UserRow) (data : UserData) : UserData :=
  let data := if u_registered user then delete_registered data else data in
  match u_emailVerifiedAt user with
  | Some _ => delete_emailVerifiedAt data
  | None => data
  end.

(** The collaborators of [UserService] are parameters: the validators, the
    password bounds of the runtime configuration, the password hash, and
    the default of the [registered] column. *)
Section UserService.
Variable assertValidEmail : string → bool.
Variable assertValidPassword : string → Z → Z → bool.
Variables password_max password_min : Z.
Variable encryptPassword : string → string.
Variable registered_default : bool.

Definition findUserByEmail (email : string) : Tx (option UserRow) :=
  if assertValidEmail email then
    await rows <~ tx_read (λ db, filter (λ u, lower (u_email u) = lower email)
                                  (users db)) ;;
    (* rows[0] *)
    tx_ret (select_default <$> head rows)
  else tx_throw InvalidEmail.

(** [uuid] is the id the store gives the new row.  [now] is the clock of
    the call: [now 0] is the time of the database at the insert of the
    account, [now (S k)] its time in round [k] of the loop of
    [addUserFeatures]. *)
Definition createUser_without_verification (data : CreateUserInput)
    (features : list FeatureType.t) (uuid : string) (now : nat → Z) : Tx UserRow :=
  await user <~ findUserByEmail (c_email data) ;;
  match user with
  | Some _ => tx_throw EmailAlreadyUsed
  | None =>
      let password := encryptPassword <$> truthy_string (c_password data) in
      let password := match password with
                      | Some p => Some p
                      | None => c_password data
                      end in
      let name := match truthy_string (c_name data) with
                  | Some n => n
                  | None => before_at (c_email data)
                  end in
      (* the row has the fields of { ...this.userCreatingData, ...data } *)
      await createdUser <~
        user_create {| u_id := uuid;
                       u_name := default "Unnamed" (Some name);
                       u_email := c_email data;
                       u_password := password;
                       u_emailVerifiedAt := c_emailVerifiedAt data;
                       u_avatarUrl := c_avatarUrl data;
                       u_registered := default registered_default (c_registered data);
                       u_createdAt := now 0%nat |} ;;
      run addUserFeatures (u_id createdUser) features (λ k, now (S k)) ;;
      tx_ret createdUser
  end.

Definition createUser (data : CreateUserInput) (features : list FeatureType.t)
    (uuid : string) (now : nat → Z) : Tx UserRow :=
  if assertValidEmail (c_email data) then
    match truthy_string (c_password data) with
    | Some p =>
        if assertValidPassword p password_max password_min
        then createUser_without_verification data features uuid now
        else tx_throw InvalidPassword
    | None => createUser_without_verification data features uuid now
    end
  else tx_throw InvalidEmail.

(** The features [fulfillUser] derives from the group. *)
Definition group_features (group : UserGroup.t) : list FeatureType.t :=
  match group with
  | UserGroup.Admin => [FeatureType.Admin; FeatureType.UnlimitedWorkspace]
  | UserGroup.TeamLead => [FeatureType.TeamWorkspace]
  | UserGroup.User => [FeatureType.PersonalWorkspace]
  | UserGroup.Other => []
  end.

(** [fulfillUser]; the 'user.updated' event it emits at the end is not a
    write to the store and is left out. *)
Definition fulfillUser (email : string) (group : UserGroup.t) (data : UserData)
    (uuid : string) (now : nat → Z) : Tx UserRow :=
  let features := group_features group in
  await user <~ findUserByEmail email ;;
  match user with
  | None =>
      createUser {| c_email := default email (d_email data);
                    c_name := Some (default (before_at email) (d_name data));
                    c_password := d_password data;
                    c_emailVerifiedAt := d_emailVerifiedAt data;
                    c_avatarUrl := d_avatarUrl data;
                    c_registered := d_registered data |} features uuid now
  | Some user =>
      let data := update_payload user data in
      if decide (Object_keys_length data = 0%nat) then tx_ret user
      else
        await updatedUser <~ user_update (u_id user) data ;;
        run tx_write (userFeature_deactivateMany
                        (activated_where (u_id updatedUser))) ;;
        run addUserFeatures (u_id updatedUser) features now ;;
        tx_ret user
  end.
End UserService.

(** *** Sign-in and account updates

    The password check of [CryptoHelper] is one more parameter. *)

(** What [signIn] returns or throws: [WrongSignInCredentials] and
    [WrongSignInMethod] are its own exceptions, and [SignInThrew] carries
    what the lookup by email threw. *)
Inductive SignInOutcome : Set :=
| SignedIn (user : UserRow)
| WrongSignInCredentials
| WrongSignInMethod
| SignInThrew (e : Error).

(** [user.findUnique({ where: { id }, select: this.defaultUserSelect })
    .catch(() => null)]. *)
Definition findUserById (id : string) : Tx (option UserRow) :=
  tx_read (λ db, select_default <$> head (filter (λ u, u_id u = id) (users db))).

Section SignIn.
Variable assertValidEmail : string → bool.
Variable assertValidPassword : string → Z → Z → bool.
Variables password_max password_min : Z.
Variable encryptPassword : string → string.
Variable verifyPassword : string → string → bool.

(** supposed to be used only for `Credential SignIn`: the raw query selects
    every column, the password too. *)
Definition findUserWithHashedPasswordByEmail (email : string) : Tx (option UserRow) :=
  if assertValidEmail email then
    await rows <~ tx_read (λ db, filter (λ u, lower (u_email u) = lower email)
                                  (users db)) ;;
    (* rows[0] *)
    tx_ret (head rows)
  else tx_throw InvalidEmail.

Definition signIn (email password : string) (db : Db) : Db * SignInOutcome :=
  match findUserWithHashedPasswordByEmail email db with
  | (db', Err e) => (db', SignInThrew e)
  | (db', Ok None) => (db', WrongSignInCredentials)
  | (db', Ok (Some user)) =>
      match truthy_string (u_password user) with
      | None => (db', WrongSignInMethod)
      | Some hash =>
          if verifyPassword password hash then (db', SignedIn user)
          else (db', WrongSignInCredentials)
      end
  end.

(** [data] with its password replaced by the hash. *)
Definition set_password (p : string) (d : UserData) : UserData :=
  {| d_name := d_name d; d_email := d_email d; d_password := Some p;
     d_emailVerifiedAt := d_emailVerifiedAt d; d_avatarUrl := d_avatarUrl d;
     d_registered := d_registered d |}.

(** [user.count({ where: { email, id: { not: id } } })]. *)
Definition count_email_taken (email id : string) (db : Db) : nat :=
  length (filter (λ u, u_email u = email ∧ u_id u ≠ id) (users db)).

(** [updateUser], with the projection [select] of the row it returns; the
    'user.updated' event it emits is left out, as in [fulfillUser]. *)
Definition updateUser {A} (id : string) (data : UserData) (select : UserRow → A) :
    Tx A :=
  await data <~
    match truthy_string (d_password data) with
    | Some p =>
        if assertValidPassword p password_max password_min
        then tx_ret (set_password (encryptPassword p) data)
        else tx_throw InvalidPassword
    | None => tx_ret data
    end ;;
  await _checked <~
    match truthy_string (d_email data) with
    | Some email =>
        if assertValidEmail email then
          await emailTaken <~ tx_read (count_email_taken email id) ;;
          match emailTaken with
          | O => tx_ret ()
          | S _ => tx_throw EmailAlreadyUsed
          end
        else tx_throw InvalidEmail
    | None => tx_ret ()
    end ;;
  await user <~ user_update id data ;;
  tx_ret (select user).
End SignIn.

(** ** The catalog and its migration *)

(** The three constants of [core/quota/constant] are parameters of the
    catalog. *)
Section Catalog.
Variables OneMB OneGB OneDay : Z.

Definition workspace_configs (name : string)
    (blobLimit storageQuota historyPeriod memberLimit : Z) : Configs :=
  [("name", CStr name); ("blobLimit", CNum blobLimit);
   ("storageQuota", CNum storageQuota); ("historyPeriod", CNum historyPeriod);
   ("memberLimit", CNum memberLimit)].

(** The last two entries of the catalog. *)
Definition personal_workspace_v1 : CommonFeature :=
  mkFeature (FeatureType.value FeatureType.PersonalWorkspace) FeatureKind.Feature 1
    (workspace_configs "Personal" (10 * OneMB) (5 * OneGB) (7 * OneDay) 1).

Definition team_workspace_v1 : CommonFeature :=
  mkFeature (FeatureType.value FeatureType.TeamWorkspace) FeatureKind.Feature 1
    (workspace_configs "Team" (30 * OneMB) (100 * OneGB) (28 * OneDay) 100).

(** [core/features/types/index.ts]: [export const Features: Feature[]]. *)
Definition Features : list CommonFeature :=
  [ mkFeature (FeatureType.value FeatureType.Copilot) FeatureKind.Feature 1 [];
    mkFeature (FeatureType.value FeatureType.EarlyAccess) FeatureKind.Feature 1
      [("whitelist", CStrings ["@toeverything.info"])];
    mkFeature (FeatureType.value FeatureType.EarlyAccess) FeatureKind.Feature 2
      [("whitelist", CStrings [])];
    mkFeature (FeatureType.value FeatureType.UnlimitedWorkspace) FeatureKind.Feature 1
      (workspace_configs "Unlimited" OneGB (500 * OneGB) (365 * OneDay) 10000);
    mkFeature (FeatureType.value FeatureType.UnlimitedCopilot) FeatureKind.Feature 1 [];
    mkFeature (FeatureType.value FeatureType.AIEarlyAccess) FeatureKind.Feature 1 [];
    mkFeature (FeatureType.value FeatureType.Admin) FeatureKind.Feature 1 [];
    personal_workspace_v1;
    team_workspace_v1 ].
End Catalog.

(** A definition of the catalog as it would be with kind Quota. *)
Definition as_quota (f : CommonFeature) : CommonFeature :=
  {| f_feature := f_feature f; f_type := FeatureKind.Quota;
     f_version := f_version f; f_configs := f_configs f |}.

(** The autoincrement primary key of a new definition row. *)
Definition next_feature_id (m : gmap Z CommonFeature) : Z :=
  foldr Z.max 0 (fst <$> map_to_list m) + 1.

(** Modelled from the spec: [upsertFeature] of
    [data/migrations/utils/user-features], whose source file is missing.
    The spec's [ensureSeeded] inserts a definition whose [(name, version)]
    is not in the store and never modifies a row that exists. *)
Definition upsertFeature (feature : CommonFeature) (db : Db) : Db :=
  if decide (Exists (λ p, f_feature (snd p) = f_feature feature
                          ∧ f_version (snd p) = f_version feature)
               (map_to_list (features db)))
  then db
  else set_features (<[next_feature_id (features db) := feature]> (features db)) db.

(** [data/migrations/1698652531198-user-features-init.ts]: [up]. *)
Definition up (catalog : list CommonFeature) (db : Db) : Db :=
  foldl (λ db feature, upsertFeature feature db) db catalog.

Definition empty_db : Db :=
  {| features := ∅; userFeatures := []; users := [] |}.

(** ** Sequences of calls *)

(** The arguments of one call of [switchUserQuota], with the time of the
    call. *)
Record SwitchCall : Set := mkSwitchCall {
  sc_userId : string;
  sc_quota : string;
  sc_reason : option string;
  sc_expiredAt : option Z;
  sc_now : Z;
}.

Definition call_switch (c : SwitchCall) : Tx () :=
  switchUserQuota (sc_userId c) (sc_quota c) (sc_reason c) (sc_expiredAt c) (sc_now c).

(** The stores an observer can see while the calls run one after the
    other: the store before the first call and the store after each call. *)
Fixpoint observed (calls : list SwitchCall) (db : Db) : list Db :=
  match calls with
  | [] => [db]
  | c :: rest => db :: observed rest (fst (call_switch c db))
  end.

(** The active quota records of an account. *)
Definition active_quota_where (userId : string) (db : Db) (r : UserFeature) : Prop :=
  userQuota_where userId db r ∧ uf_activated r = true.

#[global] Instance active_quota_where_dec userId db r :
  Decision (active_quota_where userId db r).
Proof. unfold active_quota_where. apply _. Defined.

Definition active_quotas (userId : string) (db : Db) : list UserFeature :=
  filter (active_quota_where userId db) (userFeatures db).

(** ** The grants of a feature *)

(** The records of an account that reference a definition of Feature kind
    with the name of [feature], active or not. *)
Definition grant_where (userId : string) (feature : FeatureType.t) (db : Db)
    (r : UserFeature) : Prop :=
  uf_userId r = userId
  ∧ feature_is db (feature_definition (FeatureType.value feature)) r.

#[global] Instance grant_where_dec userId feature db r :
  Decision (grant_where userId feature db r).
Proof. unfold grant_where. apply _. Defined.

Definition grants (userId : string) (feature : FeatureType.t) (db : Db) :
    list UserFeature :=
  filter (grant_where userId feature db) (userFeatures db).

(** Those of them that are active: the rows the [findFirst] of
    [addUserFeatures] looks for. *)
Definition active_grants (userId : string) (feature : FeatureType.t) (db : Db) :
    list UserFeature :=
  filter (addUserFeatures_where userId (FeatureType.value feature) db)
    (userFeatures db).

(** ** Example stores *)

(** A registry with two versions of one quota and one feature. *)
Definition two_versions_db : Db :=
  {| features :=
       {[ 1 := mkFeature "team_workspace" FeatureKind.Quota 1 [];
          2 := mkFeature "team_workspace" FeatureKind.Quota 2 [];
          3 := mkFeature "copilot" FeatureKind.Feature 1 [] ]};
     userFeatures := [];
     users := [] |}.

(** A registry with two quotas and one feature, and a ledger where account
    u1 has the personal quota and the copilot feature and account u2 has the
    team quota. *)
Definition example_db : Db :=
  {| features :=
       {[ 1 := mkFeature "personal_workspace" FeatureKind.Quota 1 [];
          2 := mkFeature "team_workspace" FeatureKind.Quota 1 [];
          3 := mkFeature "copilot" FeatureKind.Feature 1 [] ]};
     userFeatures :=
       [ mkUserFeature 1 "u1" 1 "sign up" 10 None true;
         mkUserFeature 2 "u1" 3 "subscription activated" 11 None true;
         mkUserFeature 3 "u2" 2 "sign up" 12 None true ];
     users := [] |}.

Definition example_calls : list SwitchCall :=
  [ mkSwitchCall "u1" "team_workspace" (Some "upgrade") None 20;
    mkSwitchCall "u2" "personal_workspace" None None 21;
    mkSwitchCall "u1" "team_workspace" None None 22;
    mkSwitchCall "u1" "lifetime" None None 23;
    mkSwitchCall "u1" "personal_workspace" None (Some 99) 24 ].

(** The registry the migration builds from the catalog, with the usual
    values of the three constants, and an empty ledger. *)
Definition catalog_db : Db :=
  up (Features 1048576 1073741824 86400000) empty_db.

(** The names of the two quotas of [example_db], for
    [Object.values(QuotaType)]. *)
Definition example_QuotaTypeValues : list string :=
  ["personal_workspace"; "team_workspace"].

(** A resolver for which definition 1 does not resolve any more. *)
Definition pruned_get (db : Db) (featureId : Z) : Result CommonFeature :=
  if decide (featureId = 1) then Err (DefinitionNotFound 1)
  else QuotaConfig_get db featureId.

(** The ids of the ledger grow in the order of insertion. *)
Definition id_lt (a b : UserFeature) : Prop := uf_id a < uf_id b.

#[global] Instance id_lt_dec a b : Decision (id_lt a b).
Proof. unfold id_lt. apply _. Defined.

(** [example_db] after account u1 has switched to the team quota. *)
Definition upgraded_db : Db :=
  fst (switchUserQuota "u1" "team_workspace" (Some "upgrade") None 20 example_db).

(** The registry of the catalog with one definition of Quota kind added, one
    account, and a ledger where that account has the quota and the copilot
    feature and another account has the copilot feature. *)
Definition fulfill_db : Db :=
  {| features :=
       <[10 := mkFeature "pro_plan" FeatureKind.Quota 1 []]> (features catalog_db);
     userFeatures :=
       [ mkUserFeature 1 "u1" 10 "sign up" 10 None true;
         mkUserFeature 2 "u1" 1 "subscription activated" 11 None true;
         mkUserFeature 3 "u2" 1 "subscription activated" 12 None true ];
     users := [ mkUser "u1" "Ann" "ann@example.com" None None None true 1 ] |}.

Definition rename_to_anna : UserData :=
  {| d_name := Some "Anna"; d_email := None; d_password := None;
     d_emailVerifiedAt := None; d_avatarUrl := None; d_registered := None |}.

(** A registry where the two workspace definitions of the catalog are of
    Quota kind, and a ledger where account acct has the personal quota and
    the copilot feature and another account has the team quota. *)
Definition quota_registry_db : Db :=
  {| features :=
       {[ 1 := as_quota (personal_workspace_v1 1048576 1073741824 86400000);
          2 := as_quota (team_workspace_v1 1048576 1073741824 86400000);
          3 := mkFeature "copilot" FeatureKind.Feature 1 [] ]};
     userFeatures :=
       [ mkUserFeature 1 "acct" 1 "sign up" 10 None true;
         mkUserFeature 2 "acct" 3 "subscription activated" 11 None true;
         mkUserFeature 3 "other" 2 "sign up" 12 None true ];
     users := [] |}.

(** The account the scenario creates: [fulfillUser] for an email that is
    not in the store of [catalog_db], in the group of plain users. *)
Definition no_data : UserData :=
  {| d_name := None; d_email := None; d_password := None;
     d_emailVerifiedAt := None; d_avatarUrl := None; d_registered := None |}.

Definition catalog_account_db : Db :=
  fst (fulfillUser (λ _, true) (λ _ _ _, true) 32 8 (λ p, p) true
         "acct@example.com" UserGroup.User no_data "acct" (λ _, 1) catalog_db).

(** ** Notions the further properties use *)

(** A record with another expiry time. *)
Definition with_expiredAt (e : option Z) (r : UserFeature) : UserFeature :=
  {| uf_id := uf_id r; uf_userId := uf_userId r; uf_featureId := uf_featureId r;
     uf_reason := uf_reason r; uf_createdAt := uf_createdAt r;
     uf_expiredAt := e; uf_activated := uf_activated r |}.

(** The rows [getUserQuotas] reads for an account. *)
Definition quota_rows (userId : string) (db : Db) : list UserFeature :=
  userFeature_findMany_orderBy_id (userQuota_where userId) db.

(** A record as [addUserFeatures] inserts them for an account, under a
    clock, for one of the names of a batch: it is active, has the reason
    "sign up", the time of one of the rounds of the loop and no expiry, and
    references a definition of Feature kind with that name whose version is
    the highest among such definitions. *)
Definition granted_record (userId : string) (now : nat → Z)
    (batch : list FeatureType.t) (db : Db) (r : UserFeature) : Prop :=
  uf_userId r = userId ∧ uf_activated r = true ∧ uf_reason r = "sign up"
  ∧ (∃ k, (k < length batch)%nat ∧ uf_createdAt r = now k) ∧ uf_expiredAt r = None
  ∧ ∃ f d,
      f ∈ batch
      ∧ features db !! uf_featureId r = Some d
      ∧ feature_definition (FeatureType.value f) d
      ∧ ∀ id' d', features db !! id' = Some d' →
                  feature_definition (FeatureType.value f) d' →
                  f_version d' ≤ f_version d.

(** A name [addUserFeatures] can go past: it is actively granted to the
    account, or the registry has a definition of Feature kind for it. *)
Definition grantable (userId : string) (db : Db) (f : FeatureType.t) : Prop :=
  active_grants userId f db ≠ []
  ∨ ∃ id d, features db !! id = Some d ∧ feature_definition (FeatureType.value f) d.

(** What the [updateMany] of [fulfillUser] makes of a record when it runs
    for the account [who], and the record as it is when it does not run. *)
Definition fade (who : option string) (r : UserFeature) : UserFeature :=
  match who with
  | Some userId =>
      if decide (uf_userId r = userId ∧ uf_activated r = true) then deactivate r else r
  | None => r
  end.

(** A ledger that has kept the records of another: each of them is in its
    place, as it was or with [activated] turned from true to false. *)
Definition kept (old new : list UserFeature) : Prop :=
  ∀ (i : nat) (r : UserFeature),
    old !! i = Some r →
    new !! i = Some r ∨ (uf_activated r = true ∧ new !! i = Some (deactivate r)).

(** [example_db] with the account of u1 in the [users] table: its registry
    has no definition of Feature kind for the personal workspace. *)
Definition example_users_db : Db :=
  set_users [ mkUser "u1" "Ann" "ann@example.com" None None None true 1 ] example_db.

Definition ann : UserRow := mkUser "u1" "Ann" "ann@example.com" None None None true 1.

(** A payload whose one key is [registered]. *)
Definition only_registered : UserData :=
  {| d_name := None; d_email := None; d_password := None;
     d_emailVerifiedAt := None; d_avatarUrl := None; d_registered := Some true |}.

(** The row [createUser_without_verification] inserts in the [users]
    table. *)
Definition created_row (encryptPassword : string → string)
    (registered_default : bool) (data : CreateUserInput) (uuid : string) (now : Z) :
    UserRow :=
  {| u_id := uuid;
     u_name := default "Unnamed"
                 (Some match truthy_string (c_name data) with
                       | Some n => n
                       | None => before_at (c_email data)
                       end);
     u_email := c_email data;
     u_password := match encryptPassword <$> truthy_string (c_password data) with
                   | Some p => Some p
                   | None => c_password data
                   end;
     u_emailVerifiedAt := c_emailVerifiedAt data;
     u_avatarUrl := c_avatarUrl data;
     u_registered := default registered_default (c_registered data);
     u_createdAt := now |}.

(** The rows with an email, whatever the case of its letters. *)
Definition rows_by_email (email : string) (db : Db) : list UserRow :=
  filter (λ u, lower (u_email u) = lower email) (users db).

(** No two accounts have the same email up to the case of its letters. *)
Definition emails_unique (db : Db) : Prop :=
  NoDup ((λ u, lower (u_email u)) <$> users db).

(** A password hash and its check, for the examples. *)
Definition example_hash (p : string) : string := String.append "h:" p.

Definition example_verify (password hash : string) : bool :=
  bool_decide (hash = example_hash password).

(** Two inputs of [createUser]: an account with a password and an account
    without one. *)
Definition zed_with_password : CreateUserInput :=
  {| c_email := "Zed@Example.com"; c_name := None; c_password := Some "secret12";
     c_emailVerifiedAt := None; c_avatarUrl := None; c_registered := None |}.

Definition zed_without_password : CreateUserInput :=
  {| c_email := "Zed@Example.com"; c_name := None; c_password := None;
     c_emailVerifiedAt := None; c_avatarUrl := None; c_registered := None |}.

(** The payload of a sign-in that has verified the email: its keys are
    [emailVerifiedAt] and [registered]. *)
Definition verified_sign_in : UserData :=
  {| d_name := None; d_email := None; d_password := None;
     d_emailVerifiedAt := Some 5; d_avatarUrl := None; d_registered := Some true |}.

(** A payload of [updateUser] with a new password. *)
Definition new_password : UserData :=
  {| d_name := None; d_email := None; d_password := Some "secret34";
     d_emailVerifiedAt := None; d_avatarUrl := None; d_registered := None |}.

(** ** Properties of the queries *)

#[global] Instance version_desc_total : Total version_desc.
Proof. intros a b. unfold version_desc. lia. Qed.

#[global] Instance version_desc_trans : Transitive version_desc.
Proof. intros a b c. unfold version_desc. lia. Qed.

#[global] Instance id_asc_total : Total id_asc.
Proof. intros a b. unfold id_asc. lia. Qed.

#[global] Instance id_asc_trans : Transitive id_asc.
Proof. intros a b c. unfold id_asc. lia. Qed.

(** The head of a list sorted by a total order is below all its elements. *)
Lemma head_merge_sort_least {A} (R : relation A) `{∀ x y, Decision (R x y)}
    `{!Total R, !Transitive R} (l : list A) (x : A) :
  head (merge_sort R l) = Some x → x ∈ l ∧ ∀ y, y ∈ l → R x y.
Proof.
  intros Hhead.
  pose proof (StronglySorted_merge_sort R l) as Hsorted.
  pose proof (merge_sort_Permutation R l) as Hperm.
  destruct (merge_sort R l) as [|x' t]; simplify_eq/=.
  split.
  - rewrite <- Hperm. left.
  - intros y Hy. rewrite <- Hperm in Hy.
    apply StronglySorted_inv in Hsorted as [_ Hall].
    apply elem_of_cons in Hy as [->|Hy].
    + destruct (total R x x); done.
    + rewrite Forall_forall in Hall. by apply Hall.
Qed.

Lemma head_merge_sort_None {A} (R : relation A) `{∀ x y, Decision (R x y)}
    (l : list A) :
  head (merge_sort R l) = None → l = [].
Proof.
  intros Hhead. apply Permutation_nil_r. rewrite <- (merge_sort_Permutation R l).
  by destruct (merge_sort R l).
Qed.

Section feature_findFirst.
Context (W : CommonFeature → Prop) `{∀ f, Decision (W f)}.

Lemma feature_findFirst_id_Some db id :
  feature_findFirst_id W db = Some id →
  ∃ f, features db !! id = Some f ∧ W f
       ∧ ∀ id' f', features db !! id' = Some f' → W f' →
                   f_version f' ≤ f_version f.
Proof.
  unfold feature_findFirst_id. intros Hfind.
  apply fmap_Some in Hfind as ([i f] & Hhead & ->).
  apply head_merge_sort_least in Hhead as [Hin Hleast]; [|apply _..].
  apply list_elem_of_filter in Hin as [HW Hin]. apply elem_of_map_to_list in Hin.
  exists f. split_and!; [done..|].
  intros id' f' Hlook HW'.
  apply (Hleast (id', f')), list_elem_of_filter. split; [done|].
  by apply elem_of_map_to_list.
Qed.

Lemma feature_findFirst_id_None db :
  feature_findFirst_id W db = None ↔
  ∀ id f, features db !! id = Some f → ¬ W f.
Proof.
  unfold feature_findFirst_id. rewrite fmap_None. split.
  - intros Hhead id f Hlook HW. apply head_merge_sort_None in Hhead.
    assert ((id, f) ∈ filter (λ p, W p.2) (map_to_list (features db))) as Hin.
    { apply list_elem_of_filter. split; [done|]. by apply elem_of_map_to_list. }
    rewrite Hhead in Hin. by apply elem_of_nil in Hin.
  - intros Hnone.
    destruct (head _) as [[i f]|] eqn:Hhead; [|done].
    apply head_merge_sort_least in Hhead as [Hin _]; [|apply _..].
    apply list_elem_of_filter in Hin as [HW Hin]. apply elem_of_map_to_list in Hin.
    by destruct (Hnone i f).
Qed.
End feature_findFirst.

(** *** [hasQuota] *)

Lemma hasQuota_true userId quota db :
  hasQuota userId quota db = true ↔
  ∃ r, r ∈ userFeatures db ∧ hasQuota_where userId quota db r.
Proof.
  unfold hasQuota, userFeature_count. rewrite bool_decide_eq_true. split.
  - intros Hlen. destruct (filter _ _) as [|r t] eqn:Hf; [simpl in Hlen; lia|].
    assert (r ∈ filter (hasQuota_where userId quota db) (userFeatures db)) as Hin.
    { rewrite Hf. left. }
    apply list_elem_of_filter in Hin as [HW Hin]. by exists r.
  - intros (r & Hin & HW).
    assert (r ∈ filter (hasQuota_where userId quota db) (userFeatures db)) as Hin'.
    { by apply list_elem_of_filter. }
    destruct (filter _ _); [by apply elem_of_nil in Hin'|simpl; lia].
Qed.

Lemma hasQuota_false userId quota db :
  hasQuota userId quota db = false ↔
  ∀ r, r ∈ userFeatures db → ¬ hasQuota_where userId quota db r.
Proof.
  rewrite <- not_true_iff_false, hasQuota_true. split.
  - intros Hnone r Hin HW. apply Hnone. by exists r.
  - intros Hnone (r & Hin & HW). by apply (Hnone r).
Qed.

(** *** The three ways through [switchUserQuota] *)

Lemma switchUserQuota_already userId quota reason expiredAt now db :
  hasQuota userId quota db = true →
  switchUserQuota userId quota reason expiredAt now db = (db, Ok ()).
Proof.
  intros Hhas. unfold switchUserQuota, transaction, switchUserQuota_body, tx_bind, tx_read.
  by rewrite Hhas.
Qed.

Lemma switchUserQuota_not_found userId quota reason expiredAt now db :
  hasQuota userId quota db = false →
  feature_findFirst_id (quota_definition quota) db = None
  ∨ feature_findFirst_id (quota_definition quota) db = Some 0 →
  switchUserQuota userId quota reason expiredAt now db = (db, Err (QuotaNotFound quota)).
Proof.
  intros Hhas Hfind.
  unfold switchUserQuota, transaction, switchUserQuota_body, tx_bind, tx_read.
  rewrite Hhas.
  by destruct Hfind as [-> | ->].
Qed.

Lemma switchUserQuota_switch userId quota reason expiredAt now db featureId :
  hasQuota userId quota db = false →
  feature_findFirst_id (quota_definition quota) db = Some featureId →
  featureId ≠ 0 →
  switchUserQuota userId quota reason expiredAt now db
  = (switched userId featureId reason expiredAt now db, Ok ()).
Proof.
  intros Hhas Hfind Hne.
  unfold switchUserQuota, transaction, switchUserQuota_body, tx_bind, tx_read.
  rewrite Hhas. rewrite Hfind.
  by destruct featureId.
Qed.

(** *** The stores [switchUserQuota] builds *)

Lemma feature_is_features db db' P r :
  features db' = features db → feature_is db' P r ↔ feature_is db P r.
Proof. unfold feature_is. by intros ->. Qed.

Lemma next_userFeature_id_fmap (g : UserFeature → UserFeature) l :
  (∀ r, uf_id (g r) = uf_id r) →
  next_userFeature_id (g <$> l) = next_userFeature_id l.
Proof.
  intros Hg. unfold next_userFeature_id. f_equal.
  induction l as [|r l IH]; [done|]. csimpl. by rewrite Hg, IH.
Qed.

Lemma next_userFeature_id_above l r :
  r ∈ l → uf_id r < next_userFeature_id l.
Proof.
  unfold next_userFeature_id. induction l as [|x l IH]; intros Hin.
  - by apply elem_of_nil in Hin.
  - apply elem_of_cons in Hin as [->|Hin]; csimpl; [lia|]. specialize (IH Hin). lia.
Qed.

Lemma switch_deactivate_id userId db r : uf_id (switch_deactivate userId db r) = uf_id r.
Proof. unfold switch_deactivate. by case_decide. Qed.

Lemma features_switched userId featureId reason expiredAt now db :
  features (switched userId featureId reason expiredAt now db) = features db.
Proof. done. Qed.

Lemma users_switched userId featureId reason expiredAt now db :
  users (switched userId featureId reason expiredAt now db) = users db.
Proof. done. Qed.

Lemma userFeatures_switched userId featureId reason expiredAt now db :
  userFeatures (switched userId featureId reason expiredAt now db)
  = (switch_deactivate userId db <$> userFeatures db)
    ++ [switch_record userId featureId reason expiredAt now db].
Proof.
  unfold switched, userFeature_create, userFeature_deactivateMany, switch_record. simpl.
  fold (switch_deactivate userId db).
  by rewrite (next_userFeature_id_fmap _ _ (switch_deactivate_id userId db)).
Qed.

(** The ways through [switchUserQuota], with what the lookup of the
    definition found. *)
Lemma switchUserQuota_cases userId quota reason expiredAt now db :
  (hasQuota userId quota db = true
   ∧ switchUserQuota userId quota reason expiredAt now db = (db, Ok ()))
  ∨ (hasQuota userId quota db = false
     ∧ (feature_findFirst_id (quota_definition quota) db = None
        ∨ feature_findFirst_id (quota_definition quota) db = Some 0)
     ∧ switchUserQuota userId quota reason expiredAt now db
       = (db, Err (QuotaNotFound quota)))
  ∨ (hasQuota userId quota db = false
     ∧ ∃ featureId f,
         featureId ≠ 0
         ∧ feature_findFirst_id (quota_definition quota) db = Some featureId
         ∧ features db !! featureId = Some f
         ∧ quota_definition quota f
         ∧ switchUserQuota userId quota reason expiredAt now db
           = (switched userId featureId reason expiredAt now db, Ok ())).
Proof.
  destruct (hasQuota userId quota db) eqn:Hhas.
  { left. split; [done|]. by apply switchUserQuota_already. }
  right.
  destruct (feature_findFirst_id (quota_definition quota) db) as [featureId|] eqn:Hfind.
  - destruct (decide (featureId = 0)) as [->|Hne].
    + left. split_and!; [done|by right|]. apply switchUserQuota_not_found; auto.
    + right. split; [done|].
      destruct (feature_findFirst_id_Some _ _ _ Hfind) as (f & Hlook & HW & _).
      exists featureId, f. split_and!; [done..|].
      by apply switchUserQuota_switch.
  - left. split_and!; [done|by left|]. apply switchUserQuota_not_found; auto.
Qed.

(** ** Resolution of the target definition *)

Lemma hasQuota_definition userId quota db :
  hasQuota userId quota db = true →
  ∃ id f, features db !! id = Some f ∧ quota_definition quota f.
Proof.
  intros (r & _ & _ & Hf & _)%hasQuota_true. unfold feature_is in Hf.
  destruct (features db !! uf_featureId r) as [f|] eqn:Hlook; [|done].
  by exists (uf_featureId r), f.
Qed.

Lemma switchUserQuota_no_definition userId quota reason expiredAt now db :
  (∀ id f, features db !! id = Some f → ¬ quota_definition quota f) →
  switchUserQuota userId quota reason expiredAt now db
  = (db, Err (QuotaNotFound quota)).
Proof.
  intros Hnone. apply switchUserQuota_not_found.
  - apply not_true_iff_false. intros (id & f & Hlook & HW)%hasQuota_definition.
    by apply (Hnone id f).
  - left. by apply feature_findFirst_id_None.
Qed.

(** C5. [switchUserQuota] fails with "Quota ... not found", and leaves the
    store as it was, when the registry has no row of Quota kind with the
    requested name.  When it has one, and the quota is not already active,
    the row it selects is a row of Quota kind with that name whose version
    is the highest among such rows; the call then inserts a record that
    references the id of that row (an id of 0 is read as no row). *)
Theorem switchUserQuota_resolves_latest_version
    (userId quota : string) (reason : option string) (expiredAt : option Z)
    (now : Z) (db : Db) :
  ((∀ id f, features db !! id = Some f → ¬ quota_definition quota f) →
   switchUserQuota userId quota reason expiredAt now db
   = (db, Err (QuotaNotFound quota)))
  ∧ (hasQuota userId quota db = false →
     (∃ id f, features db !! id = Some f ∧ quota_definition quota f) →
     ∃ id f,
       features db !! id = Some f
       ∧ quota_definition quota f
       ∧ (∀ id' f', features db !! id' = Some f' → quota_definition quota f' →
                    f_version f' ≤ f_version f)
       ∧ switchUserQuota userId quota reason expiredAt now db
         = if decide (id = 0) then (db, Err (QuotaNotFound quota))
           else (switched userId id reason expiredAt now db, Ok ())).
Proof.
  split.
  - apply switchUserQuota_no_definition.
  - intros Hhas (id0 & f0 & Hlook0 & HW0).
    destruct (feature_findFirst_id (quota_definition quota) db) as [id|] eqn:Hfind.
    + destruct (feature_findFirst_id_Some _ _ _ Hfind) as (f & Hlook & HW & Hmax).
      exists id, f. split_and!; [done..|].
      case_decide as Hid.
      * subst id. apply switchUserQuota_not_found; auto.
      * by apply switchUserQuota_switch.
    + exfalso. rewrite feature_findFirst_id_None in Hfind. by apply (Hfind id0 f0).
Qed.

Lemma switchUserQuota_resolves_latest_version_witness :
  ∃ id f,
    features two_versions_db !! id = Some f
    ∧ quota_definition "team_workspace" f
    ∧ (∀ id' f', features two_versions_db !! id' = Some f' →
                 quota_definition "team_workspace" f' → f_version f' ≤ f_version f)
    ∧ switchUserQuota "u1" "team_workspace" None None 5 two_versions_db
      = if decide (id = 0) then (two_versions_db, Err (QuotaNotFound "team_workspace"))
        else (switched "u1" id None None 5 two_versions_db, Ok ()).
Proof.
  apply (proj2 (switchUserQuota_resolves_latest_version
                  "u1" "team_workspace" None None 5 two_versions_db)).
  - reflexivity.
  - exists 1, (mkFeature "team_workspace" FeatureKind.Quota 1 []).
    split; [reflexivity|]. split; reflexivity.
Defined.

(** The row selected in [two_versions_db] is version 2. *)
Example switchUserQuota_two_versions :
  userFeatures (fst (switchUserQuota "u1" "team_workspace" None None 5 two_versions_db))
  = [mkUserFeature 1 "u1" 2 "switch quota" 5 None true].
Proof. vm_compute. reflexivity. Qed.

(** ** At most one active quota *)

Lemma filter_fmap_unchanged {A} (P : A → Prop) `{∀ x, Decision (P x)}
    (g : A → A) (l : list A) :
  (∀ x, x ∈ l → g x = x ∨ (¬ P x ∧ ¬ P (g x))) →
  filter P (g <$> l) = filter P l.
Proof.
  induction l as [|x l IH]; intros Hg; [done|]. csimpl.
  rewrite !filter_cons, IH by (intros y Hy; apply Hg; by right).
  destruct (Hg x) as [-> | [Hn Hn']]; [by left|done|].
  by rewrite !decide_False.
Qed.

Lemma filter_empty_iff {A} (P : A → Prop) `{∀ x, Decision (P x)} (l : list A) :
  filter P l = [] ↔ ∀ x, x ∈ l → ¬ P x.
Proof.
  split.
  - intros Hnil x Hin HP. by eapply filter_nil_not_elem_of.
  - intros Hall. destruct (filter P l) as [|x t] eqn:Hf; [done|].
    assert (x ∈ filter P l) as Hin by (rewrite Hf; left).
    apply list_elem_of_filter in Hin as [HP Hin]. by destruct (Hall x Hin).
Qed.

Lemma filter_fmap_none {A} (P : A → Prop) `{∀ x, Decision (P x)}
    (g : A → A) (l : list A) :
  (∀ x, x ∈ l → ¬ P (g x)) → filter P (g <$> l) = [].
Proof.
  induction l as [|x l IH]; intros Hg; [done|]. csimpl.
  rewrite filter_cons, decide_False by (apply Hg; by left).
  apply IH. intros y Hy. apply Hg. by right.
Qed.

Lemma active_quota_where_features userId db db' r :
  features db' = features db →
  active_quota_where userId db' r ↔ active_quota_where userId db r.
Proof.
  intros Hf. unfold active_quota_where, userQuota_where.
  by rewrite (feature_is_features db db' _ r Hf).
Qed.

Lemma userQuota_where_deactivate userId db r :
  userQuota_where userId db (deactivate r) ↔ userQuota_where userId db r.
Proof. done. Qed.

Section switched.
Context (userId : string) (featureId : Z) (reason : option string)
  (expiredAt : option Z) (now : Z) (db : Db).

Let db' := switched userId featureId reason expiredAt now db.
Let record := switch_record userId featureId reason expiredAt now db.

(** After the two writes, the account's active quota records are the
    inserted record alone. *)
Lemma active_quotas_switched f :
  features db !! featureId = Some f → f_type f = FeatureKind.Quota →
  active_quotas userId db' = [record].
Proof.
  intros Hlook Hkind. unfold active_quotas, db'.
  rewrite userFeatures_switched, filter_app.
  rewrite (list_filter_iff _ (active_quota_where userId db))
    by (intros r; by apply active_quota_where_features).
  rewrite (list_filter_iff (active_quota_where userId (switched _ _ _ _ _ _))
             (active_quota_where userId db))
    by (intros r; by apply active_quota_where_features).
  rewrite filter_fmap_none.
  - rewrite filter_cons, decide_True; [done|].
    unfold active_quota_where, userQuota_where, feature_is, switch_record. simpl.
    by rewrite Hlook.
  - intros r _ [Hw Hact]. unfold switch_deactivate in *.
    case_decide as Hd; [done|]. by apply Hd.
Qed.

(** The active quota records of another account are the same. *)
Lemma active_quotas_switched_other acct :
  acct ≠ userId → active_quotas acct db' = active_quotas acct db.
Proof.
  intros Hne. unfold active_quotas, db'.
  rewrite userFeatures_switched, filter_app.
  rewrite (list_filter_iff _ (active_quota_where acct db))
    by (intros r; by apply active_quota_where_features).
  rewrite (list_filter_iff (active_quota_where acct (switched _ _ _ _ _ _))
             (active_quota_where acct db))
    by (intros r; by apply active_quota_where_features).
  rewrite filter_cons, decide_False, filter_nil, app_nil_r.
  - apply filter_fmap_unchanged. intros r _. unfold switch_deactivate.
    case_decide as Hd; [right|by left].
    destruct Hd as [Hu _]. unfold active_quota_where, userQuota_where. simpl.
    split; intros [[Hu' _] _]; congruence.
  - unfold active_quota_where, userQuota_where, switch_record. simpl.
    intros [[Hu _] _]. congruence.
Qed.
End switched.

Lemma switchUserQuota_step_at_most_one acct userId quota reason expiredAt now db :
  (length (active_quotas acct db) ≤ 1)%nat →
  (length (active_quotas acct
             (fst (switchUserQuota userId quota reason expiredAt now db))) ≤ 1)%nat.
Proof.
  intros Hone.
  destruct (switchUserQuota_cases userId quota reason expiredAt now db)
    as [[_ ->] | [(_ & _ & ->) | (_ & featureId & f & _ & _ & Hlook & [_ Hkind] & ->)]];
    [done..|]. simpl.
  destruct (decide (acct = userId)) as [->|Hne].
  - by rewrite (active_quotas_switched _ _ _ _ _ _ f).
  - by rewrite active_quotas_switched_other.
Qed.

(** C1. Along every sequence of [switchUserQuota] calls that starts in a
    store where an account has at most one active record of Quota kind, the
    account has at most one such record in every store that can be observed:
    the store before the first call and the store after each call.  Each
    call either leaves the store as it was or, in one transaction, sets
    [activated] to false on every record of Quota kind of its account and
    then inserts one active record of Quota kind, which is then the only
    active quota record of that account. *)
Theorem switchUserQuota_at_most_one_active_quota
    (acct : string) (calls : list SwitchCall) (db : Db) :
  ((length (active_quotas acct db) ≤ 1)%nat →
   Forall (λ db', (length (active_quotas acct db') ≤ 1)%nat) (observed calls db))
  ∧ ∀ (c : SwitchCall) (d : Db),
      fst (call_switch c d) = d
      ∨ ∃ featureId,
          let record :=
            switch_record (sc_userId c) featureId (sc_reason c) (sc_expiredAt c)
              (sc_now c) d in
          features (fst (call_switch c d)) = features d
          ∧ userFeatures (fst (call_switch c d))
            = (switch_deactivate (sc_userId c) d <$> userFeatures d) ++ [record]
          ∧ uf_activated record = true
          ∧ active_quotas (sc_userId c) (fst (call_switch c d)) = [record].
Proof.
  split.
  - revert db. induction calls as [|c calls IH]; intros db Hone; simpl.
    + by constructor.
    + constructor; [done|]. apply IH. by apply switchUserQuota_step_at_most_one.
  - intros c d. unfold call_switch.
    destruct (switchUserQuota_cases (sc_userId c) (sc_quota c) (sc_reason c)
                (sc_expiredAt c) (sc_now c) d)
      as [[_ ->] | [(_ & _ & ->) | (_ & featureId & f & _ & _ & Hlook & [_ Hkind] & ->)]];
      [by left..|].
    right. exists featureId. simpl. split_and!; [done| |done|].
    + apply userFeatures_switched.
    + by apply (active_quotas_switched _ _ _ _ _ _ f).
Qed.

Lemma switchUserQuota_at_most_one_active_quota_witness :
  Forall (λ db', (length (active_quotas "u1" db') ≤ 1)%nat)
    (observed example_calls example_db).
Proof.
  apply (proj1 (switchUserQuota_at_most_one_active_quota "u1" example_calls example_db)).
  vm_compute. lia.
Defined.

(** ** Idempotence of [switchUserQuota] *)

Lemma hasQuota_switched userId quota featureId reason expiredAt now db f :
  features db !! featureId = Some f → quota_definition quota f →
  hasQuota userId quota (switched userId featureId reason expiredAt now db) = true.
Proof.
  intros Hlook Hdef. apply hasQuota_true.
  exists (switch_record userId featureId reason expiredAt now db). split.
  - rewrite userFeatures_switched. apply elem_of_app. right. left.
  - unfold hasQuota_where, feature_is, switch_record. simpl.
    by rewrite Hlook.
Qed.

(** C3. A second call of [switchUserQuota] for the same account and quota,
    whatever its reason, expiry and time, never writes: it leaves the store
    as the first call left it and ends as the first call ended.  When the
    first call succeeds, the quota is active after it and after the second
    call, and the two calls together have inserted one record when the quota
    was not active before the first call, and none when it was. *)
Theorem switchUserQuota_idempotent
    (userId quota : string) (reason reason' : option string)
    (expiredAt expiredAt' : option Z) (now now' : Z) (db : Db) :
  let first := switchUserQuota userId quota reason expiredAt now db in
  let second := switchUserQuota userId quota reason' expiredAt' now' (fst first) in
  fst second = fst first
  ∧ snd second = snd first
  ∧ (snd first = Ok () →
     hasQuota userId quota (fst first) = true
     ∧ hasQuota userId quota (fst second) = true
     ∧ length (userFeatures (fst second))
       = (length (userFeatures db) + if hasQuota userId quota db then 0 else 1)%nat).
Proof.
  cbv zeta.
  destruct (switchUserQuota_cases userId quota reason expiredAt now db)
    as [[Hh Hr] | [(Hh & Hfind & Hr) | (Hh & featureId & f & _ & _ & Hlook & Hdef & Hr)]];
    rewrite Hr; cbn [fst snd].
  - rewrite (switchUserQuota_already _ _ reason' expiredAt' now' _ Hh). cbn [fst snd].
    rewrite Hh. split_and!; [done..|]. intros _. split_and!; [done..|lia].
  - rewrite (switchUserQuota_not_found _ _ reason' expiredAt' now' _ Hh Hfind).
    cbn [fst snd]. split_and!; [done..|]. intros ?; simplify_eq.
  - pose proof (hasQuota_switched userId quota featureId reason expiredAt now db f
                  Hlook Hdef) as Hactive.
    rewrite (switchUserQuota_already _ _ reason' expiredAt' now' _ Hactive).
    cbn [fst snd]. rewrite Hh. split_and!; [done..|]. intros _.
    split_and!; [done..|].
    by rewrite userFeatures_switched, length_app, length_fmap.
Qed.

Lemma switchUserQuota_idempotent_witness :
  let first := switchUserQuota "u1" "team_workspace" (Some "upgrade") None 20
                 example_db in
  let second := switchUserQuota "u1" "team_workspace" None (Some 50) 21 (fst first) in
  hasQuota "u1" "team_workspace" (fst first) = true
  ∧ hasQuota "u1" "team_workspace" (fst second) = true
  ∧ length (userFeatures (fst second))
    = (length (userFeatures example_db)
       + if hasQuota "u1" "team_workspace" example_db then 0 else 1)%nat.
Proof.
  apply (proj2 (proj2 (switchUserQuota_idempotent "u1" "team_workspace"
                         (Some "upgrade") None None (Some 50) 20 21 example_db))).
  vm_compute. reflexivity.
Defined.

(** A call for a quota that has no definition fails, and so does the call
    after it; neither writes. *)
Example switchUserQuota_twice_unknown :
  let first := switchUserQuota "u1" "lifetime" None None 20 example_db in
  let second := switchUserQuota "u1" "lifetime" None None 21 (fst first) in
  first = (example_db, Err (QuotaNotFound "lifetime"))
  ∧ second = (example_db, Err (QuotaNotFound "lifetime")).
Proof. vm_compute. auto. Qed.

(** ** Records [switchUserQuota] does not touch *)

(** C10. A call of [switchUserQuota], whether it succeeds or fails, leaves
    the registry as it was and leaves in its place, with all its fields,
    every activation record whose definition is of Feature kind and every
    record of another account.  A record it changes is a record of Quota
    kind of the account of the call, and the change is that [activated] is
    false afterwards. *)
Theorem switchUserQuota_keeps_feature_records
    (userId quota : string) (reason : option string) (expiredAt : option Z)
    (now : Z) (db : Db) :
  let db' := fst (switchUserQuota userId quota reason expiredAt now db) in
  features db' = features db
  ∧ ∀ (i : nat) (r : UserFeature),
      userFeatures db !! i = Some r →
      (feature_is db (λ f, f_type f = FeatureKind.Feature) r →
       userFeatures db' !! i = Some r)
      ∧ (uf_userId r ≠ userId → userFeatures db' !! i = Some r)
      ∧ (userFeatures db' !! i = Some r
         ∨ (userQuota_where userId db r
            ∧ userFeatures db' !! i = Some (deactivate r))).
Proof.
  cbv zeta.
  destruct (switchUserQuota_cases userId quota reason expiredAt now db)
    as [[_ ->] | [(_ & _ & ->) | (_ & featureId & f & _ & _ & _ & _ & ->)]];
    cbn [fst]; [by auto..|].
  split; [done|]. intros i r Hi.
  assert (userFeatures (switched userId featureId reason expiredAt now db) !! i
          = Some (switch_deactivate userId db r)) as Hi'.
  { rewrite userFeatures_switched, lookup_app_l.
    - by rewrite list_lookup_fmap, Hi.
    - rewrite length_fmap. by eapply lookup_lt_Some. }
  rewrite Hi'. unfold switch_deactivate. case_decide as Hd.
  - split_and!; [| |by right].
    + intros Hfeature. exfalso. destruct Hd as [_ Hquota].
      unfold feature_is in *. destruct (features db !! uf_featureId r); [|done].
      congruence.
    + intros Hne. by destruct Hd.
  - split_and!; by auto.
Qed.

Lemma switchUserQuota_keeps_feature_records_witness :
  userFeatures
    (fst (switchUserQuota "u1" "team_workspace" (Some "upgrade") None 20 example_db))
    !! 1%nat
  = Some (mkUserFeature 2 "u1" 3 "subscription activated" 11 None true).
Proof.
  refine (proj1 (proj2 (switchUserQuota_keeps_feature_records "u1" "team_workspace"
                          (Some "upgrade") None 20 example_db) 1%nat
                   (mkUserFeature 2 "u1" 3 "subscription activated" 11 None true) _) _).
  - reflexivity.
  - vm_compute. reflexivity.
Defined.

(** ** The loop of [addUserFeatures] *)

Lemma FeatureType_value_inj f g : FeatureType.value f = FeatureType.value g → f = g.
Proof. destruct f, g; simpl; intros H; by inversion H. Qed.

Lemma findFirst_latest_None (W : Db → UserFeature → Prop)
    `{∀ db r, Decision (W db r)} db :
  userFeature_findFirst_latest W db = None ↔ filter (W db) (userFeatures db) = [].
Proof.
  unfold userFeature_findFirst_latest. split.
  - apply head_merge_sort_None.
  - intros ->. done.
Qed.

Section loop_steps.
Context (userId : string) (now : nat → Z) (feature : FeatureType.t)
  (rest : list FeatureType.t) (db : Db).

(** A name that is already granted is skipped, and the loop goes on
    with the rest of the batch. *)
Lemma addUserFeatures_loop_skip :
  active_grants userId feature db ≠ [] →
  addUserFeatures_loop userId now (feature :: rest) db
  = addUserFeatures_loop userId (λ k, now (S k)) rest db.
Proof.
  intros Hactive. simpl. unfold tx_bind at 1. unfold tx_read at 1.
  destruct (userFeature_findFirst_latest _ db) eqn:Hfind; [done|].
  by apply findFirst_latest_None in Hfind.
Qed.

Lemma addUserFeatures_loop_not_found :
  active_grants userId feature db = [] →
  feature_findFirst_id (feature_definition (FeatureType.value feature)) db = None
  ∨ feature_findFirst_id (feature_definition (FeatureType.value feature)) db = Some 0 →
  addUserFeatures_loop userId now (feature :: rest) db
  = (db, Err (FeatureNotFound (FeatureType.value feature))).
Proof.
  intros Hactive Hfind. apply findFirst_latest_None in Hactive.
  simpl. unfold tx_bind at 1. unfold tx_read at 1. rewrite Hactive.
  unfold tx_bind at 1. unfold tx_read at 1.
  by destruct Hfind as [-> | ->].
Qed.

Lemma addUserFeatures_loop_insert featureId :
  active_grants userId feature db = [] →
  feature_findFirst_id (feature_definition (FeatureType.value feature)) db
  = Some featureId →
  featureId ≠ 0 →
  addUserFeatures_loop userId now (feature :: rest) db
  = addUserFeatures_loop userId (λ k, now (S k)) rest
      (userFeature_create userId featureId "sign up" true None (now 0%nat)
               db).
Proof.
  intros Hactive Hfind Hne. apply findFirst_latest_None in Hactive.
  simpl. unfold tx_bind at 1. unfold tx_read at 1. rewrite Hactive.
  unfold tx_bind at 1. unfold tx_read at 1. rewrite Hfind.
  destruct featureId; [done|..]; unfold tx_bind at 1; by unfold tx_write at 1.
Qed.

(** One turn of the loop: the three ways through it. *)
Lemma addUserFeatures_loop_cases :
  (active_grants userId feature db ≠ []
   ∧ addUserFeatures_loop userId now (feature :: rest) db
     = addUserFeatures_loop userId (λ k, now (S k)) rest db)
  ∨ (active_grants userId feature db = []
     ∧ addUserFeatures_loop userId now (feature :: rest) db
       = (db, Err (FeatureNotFound (FeatureType.value feature))))
  ∨ (active_grants userId feature db = []
     ∧ ∃ featureId f,
         features db !! featureId = Some f
         ∧ feature_definition (FeatureType.value feature) f
         ∧ addUserFeatures_loop userId now (feature :: rest) db
           = addUserFeatures_loop userId (λ k, now (S k)) rest
               (userFeature_create userId featureId "sign up" true None (now 0%nat)
               db)).
Proof.
  destruct (decide (active_grants userId feature db = [])) as [Hactive|Hactive].
  - right.
    destruct (feature_findFirst_id (feature_definition (FeatureType.value feature)) db)
      as [featureId|] eqn:Hfind.
    + destruct (decide (featureId = 0)) as [->|Hne].
      * left. split; [done|]. apply addUserFeatures_loop_not_found; auto.
      * right. split; [done|].
        destruct (feature_findFirst_id_Some _ _ _ Hfind) as (f & Hlook & HW & _).
        exists featureId, f. split_and!; [done..|].
        by apply addUserFeatures_loop_insert.
    + left. split; [done|]. apply addUserFeatures_loop_not_found; auto.
  - left. split; [done|]. by apply addUserFeatures_loop_skip.
Qed.
End loop_steps.

Lemma transaction_Ok {A} (body : Tx A) db db' a :
  transaction body db = (db', Ok a) ↔ body db = (db', Ok a).
Proof.
  unfold transaction. destruct (body db) as [d [x|e]]; split; intros; by simplify_eq.
Qed.

Lemma transaction_Err {A} (body : Tx A) db db' e :
  transaction body db = (db', Err e) ↔ db' = db ∧ ∃ d, body db = (d, Err e).
Proof.
  unfold transaction. destruct (body db) as [d [x|e']]; split.
  - intros; simplify_eq.
  - intros [_ [d' ?]]; simplify_eq.
  - intros; simplify_eq. eauto.
  - intros [-> [d' ?]]; by simplify_eq.
Qed.

Lemma grant_where_features userId feature db db' r :
  features db' = features db →
  grant_where userId feature db' r ↔ grant_where userId feature db r.
Proof.
  intros Hf. unfold grant_where. by rewrite (feature_is_features db db' _ r Hf).
Qed.

Lemma addUserFeatures_where_features userId feature db db' r :
  features db' = features db →
  addUserFeatures_where userId feature db' r ↔ addUserFeatures_where userId feature db r.
Proof.
  intros Hf. unfold addUserFeatures_where. by rewrite (feature_is_features db db' _ r Hf).
Qed.

Section created.
Context (userId : string) (featureId : Z) (now : Z) (db : Db)
  (feature : FeatureType.t) (f : CommonFeature).
Hypothesis Hlook : features db !! featureId = Some f.
Hypothesis Hdef : feature_definition (FeatureType.value feature) f.

Let db' := userFeature_create userId featureId "sign up" true None now db.
Let record :=
  {| uf_id := next_userFeature_id (userFeatures db);
     uf_userId := userId; uf_featureId := featureId;
     uf_reason := "sign up"; uf_createdAt := now;
     uf_expiredAt := None; uf_activated := true |}.

Lemma grants_created :
  grants userId feature db' = grants userId feature db ++ [record].
Proof.
  unfold grants.
  rewrite (list_filter_iff _ (grant_where userId feature db))
    by (intros r; by apply grant_where_features).
  unfold db', userFeature_create. simpl.
  rewrite filter_app, filter_cons, decide_True; [done|].
  unfold grant_where, feature_is. simpl. by rewrite Hlook.
Qed.

Lemma active_grants_created :
  active_grants userId feature db' = active_grants userId feature db ++ [record].
Proof.
  unfold active_grants.
  rewrite (list_filter_iff _ (addUserFeatures_where userId (FeatureType.value feature) db))
    by (intros r; by apply addUserFeatures_where_features).
  unfold db', userFeature_create. simpl.
  rewrite filter_app, filter_cons, decide_True; [done|].
  unfold addUserFeatures_where, feature_is. simpl. by rewrite Hlook.
Qed.

Lemma grants_created_other other :
  other ≠ feature → grants userId other db' = grants userId other db.
Proof.
  intros Hne. unfold grants.
  rewrite (list_filter_iff _ (grant_where userId other db))
    by (intros r; by apply grant_where_features).
  unfold db', userFeature_create. simpl.
  rewrite filter_app, filter_cons, decide_False, filter_nil, app_nil_r; [done|].
  unfold grant_where, feature_is. simpl. rewrite Hlook.
  intros [_ [Hname _]]. destruct Hdef as [Hname' _].
  apply Hne, FeatureType_value_inj. congruence.
Qed.

Lemma active_grants_created_other other :
  other ≠ feature → active_grants userId other db' = active_grants userId other db.
Proof.
  intros Hne. unfold active_grants.
  rewrite (list_filter_iff _ (addUserFeatures_where userId (FeatureType.value other) db))
    by (intros r; by apply addUserFeatures_where_features).
  unfold db', userFeature_create. simpl.
  rewrite filter_app, filter_cons, decide_False, filter_nil, app_nil_r; [done|].
  unfold addUserFeatures_where, feature_is. simpl. rewrite Hlook.
  intros (_ & [Hname _] & _). destruct Hdef as [Hname' _].
  apply Hne, FeatureType_value_inj. congruence.
Qed.
End created.


(** How many records the loop adds for a name: one when the name is in the
    batch and was not actively granted before, none otherwise. *)
Lemma addUserFeatures_loop_counts userId now features0 :
  ∀ db db1,
    addUserFeatures_loop userId now features0 db = (db1, Ok ()) →
    ∀ f,
      let added := if decide (f ∈ features0 ∧ active_grants userId f db = [])
                   then 1%nat else 0%nat in
      length (grants userId f db1) = (length (grants userId f db) + added)%nat
      ∧ length (active_grants userId f db1)
        = (length (active_grants userId f db) + added)%nat.
Proof.
  revert now. induction features0 as [|g rest IH]; intros now db db1 Hloop f; cbv zeta.
  - simpl in Hloop. unfold tx_ret in Hloop. simplify_eq.
    rewrite decide_False; [lia|]. intros [Hin _]. by apply elem_of_nil in Hin.
  - destruct (addUserFeatures_loop_cases userId now g rest db)
      as [[Hactive Heq] | [[_ Heq] | (Hactive & featureId & d & Hlook & Hdef & Heq)]];
      rewrite Heq in Hloop; [| by simplify_eq |].
    + specialize (IH _ _ _ Hloop f). cbv zeta in IH.
      destruct IH as [IH1 IH2]. rewrite IH1, IH2.
      assert (f ∈ g :: rest ∧ active_grants userId f db = []
              ↔ f ∈ rest ∧ active_grants userId f db = []) as Hiff.
      { rewrite elem_of_cons. split; [|tauto].
        intros [[->|Hin] Hnil]; [done|tauto]. }
      by rewrite (decide_ext _ _ _ _ Hiff).
    + specialize (IH _ _ _ Hloop f). cbv zeta in IH. destruct IH as [IH1 IH2].
      rewrite IH1, IH2. clear IH1 IH2.
      destruct (decide (f = g)) as [->|Hne].
      * rewrite (grants_created _ _ _ _ g d Hlook Hdef).
        rewrite (active_grants_created _ _ _ _ g d Hlook Hdef).
        rewrite Hactive, !length_app. simpl.
        rewrite decide_False by (intros [_ ?]; done).
        rewrite decide_True by (split; [by left|done]). lia.
      * rewrite (grants_created_other _ _ _ _ g d Hlook Hdef f Hne).
        rewrite (active_grants_created_other _ _ _ _ g d Hlook Hdef f Hne).
        assert (f ∈ g :: rest ∧ active_grants userId f db = []
                ↔ f ∈ rest ∧ active_grants userId f db = []) as Hiff.
        { rewrite elem_of_cons. split; [|tauto].
        intros [[->|Hin] Hnil]; [done|tauto]. }
        by rewrite (decide_ext _ _ _ _ Hiff).
Qed.

(** When every name of the batch is actively granted, the loop writes
    nothing. *)
Lemma addUserFeatures_loop_skip_all userId now features0 db :
  (∀ f, f ∈ features0 → active_grants userId f db ≠ []) →
  addUserFeatures_loop userId now features0 db = (db, Ok ()).
Proof.
  revert now. induction features0 as [|g rest IH]; intros now Hall; [done|].
  rewrite addUserFeatures_loop_skip by (apply Hall; by left).
  apply IH. intros f Hin. apply Hall. by right.
Qed.

(** ** Idempotence of [addUserFeatures], name by name *)

(** C7. In the loop of [addUserFeatures], a name that has an active record
    of Feature kind for the account is skipped: no record is inserted for it
    and the loop goes on with the rest of the batch.  When a call of
    [addUserFeatures] succeeds, it has added, for each name of the batch,
    one record if the name was not actively granted before and none if it
    was; a second call with the same batch succeeds and leaves the store as
    the first call left it.  So a name with no record before has exactly one
    record after the two calls. *)
Theorem addUserFeatures_idempotent_per_name
    (userId : string) (features0 : list FeatureType.t) (now now' : nat → Z) (db : Db) :
  (∀ feature rest,
     active_grants userId feature db ≠ [] →
     addUserFeatures_loop userId now (feature :: rest) db
     = addUserFeatures_loop userId (λ k, now (S k)) rest db)
  ∧ ∀ db1,
      addUserFeatures userId features0 now db = (db1, Ok ()) →
      addUserFeatures userId features0 now' db1 = (db1, Ok ())
      ∧ ∀ f, f ∈ features0 →
          length (grants userId f db1)
          = (length (grants userId f db)
             + if decide (active_grants userId f db = []) then 1 else 0)%nat
          ∧ (grants userId f db = [] →
             length (grants userId f
                       (fst (addUserFeatures userId features0 now' db1))) = 1%nat).
Proof.
  split.
  { intros feature rest. apply addUserFeatures_loop_skip. }
  intros db1 Hfirst. unfold addUserFeatures in *.
  apply (proj1 (transaction_Ok _ _ _ _)) in Hfirst.
  pose proof (addUserFeatures_loop_counts _ _ _ _ _ Hfirst) as Hcounts.
  assert (addUserFeatures_loop userId now' features0 db1 = (db1, Ok ())) as Hsecond.
  { apply addUserFeatures_loop_skip_all. intros f Hin Hnil.
    destruct (Hcounts f) as [_ Hlen]. rewrite Hnil in Hlen. simpl in Hlen.
    destruct (active_grants userId f db) eqn:Hbefore; simpl in Hlen.
    - rewrite decide_True in Hlen by done. lia.
    - lia. }
  assert (transaction (addUserFeatures_loop userId now' features0) db1 = (db1, Ok ()))
    as Hsecond' by by apply transaction_Ok.
  split; [done|]. intros f Hin.
  destruct (Hcounts f) as [Hlen _]. cbv zeta in Hlen.
  assert (length (grants userId f db1)
          = (length (grants userId f db)
             + if decide (active_grants userId f db = []) then 1 else 0)%nat) as Hlen'.
  { rewrite Hlen. do 2 case_decide; tauto || done. }
  split; [done|]. intros Hnone. rewrite Hsecond'. simpl. rewrite Hlen', Hnone.
  rewrite decide_True; [done|].
  unfold active_grants. unfold grants in Hnone.
  apply filter_empty_iff. rewrite filter_empty_iff in Hnone.
  intros r Hr (Hu & Hf & _). apply (Hnone r Hr). by split.
Qed.

Lemma addUserFeatures_idempotent_per_name_witness :
  let batch := [FeatureType.EarlyAccess; FeatureType.Copilot; FeatureType.EarlyAccess] in
  let db1 := fst (addUserFeatures "acct" batch (λ k, 1 + Z.of_nat k) catalog_db) in
  addUserFeatures "acct" batch (λ k, 5 + Z.of_nat k) db1 = (db1, Ok ()).
Proof.
  apply (proj2 (addUserFeatures_idempotent_per_name "acct"
                  [FeatureType.EarlyAccess; FeatureType.Copilot; FeatureType.EarlyAccess]
                  (λ k, 1 + Z.of_nat k) (λ k, 5 + Z.of_nat k) catalog_db)).
  vm_compute. reflexivity.
Defined.

(** The scenario of the specification: the early-access feature granted
    twice leaves one record, which references version 2 of the feature. *)
Example addUserFeatures_early_access_twice :
  userFeatures
    (fst (addUserFeatures "acct" [FeatureType.EarlyAccess] (λ _, 2)
            (fst (addUserFeatures "acct" [FeatureType.EarlyAccess] (λ _, 1)
                    catalog_db))))
  = [mkUserFeature 1 "acct" 3 "sign up" 1 None true].
Proof. vm_compute. reflexivity. Qed.

(** ** Atomicity *)

(** C8. A call of [switchUserQuota] or of [addUserFeatures] that fails
    leaves the store as it was before the call.  The store after a call of
    [switchUserQuota] is the store before it or the store with both writes
    done, the deactivation and the insertion, and the body of its
    transaction throws only before its first write; the store after a call
    of [addUserFeatures] that succeeds is the store at the end of the whole
    loop. *)
Theorem ledger_mutations_atomic
    (userId quota : string) (reason : option string) (expiredAt : option Z)
    (features0 : list FeatureType.t) (now : Z) (clock : nat → Z)
    (db : Db) :
  (∀ e, snd (switchUserQuota userId quota reason expiredAt now db) = Err e →
        fst (switchUserQuota userId quota reason expiredAt now db) = db)
  ∧ (fst (switchUserQuota userId quota reason expiredAt now db) = db
     ∨ ∃ featureId,
         userFeatures (fst (switchUserQuota userId quota reason expiredAt now db))
         = (switch_deactivate userId db <$> userFeatures db)
           ++ [switch_record userId featureId reason expiredAt now db])
  ∧ (∀ e, snd (switchUserQuota_body userId quota reason expiredAt now db) = Err e →
          fst (switchUserQuota_body userId quota reason expiredAt now db) = db)
  ∧ (∀ e, snd (addUserFeatures userId features0 clock db) = Err e →
          fst (addUserFeatures userId features0 clock db) = db)
  ∧ (snd (addUserFeatures userId features0 clock db) = Ok () →
     addUserFeatures_loop userId clock features0 db
     = (fst (addUserFeatures userId features0 clock db), Ok ())).
Proof.
  split_and!.
  - intros e He.
    destruct (switchUserQuota userId quota reason expiredAt now db) as [db' res] eqn:Hcall.
    simpl in *. subst res. by apply (proj1 (transaction_Err _ _ _ _)) in Hcall as [-> _].
  - destruct (switchUserQuota_cases userId quota reason expiredAt now db)
      as [[_ ->] | [(_ & _ & ->) | (_ & featureId & f & _ & _ & _ & _ & ->)]];
      [by left..|].
    right. exists featureId. apply userFeatures_switched.
  - intros e. unfold switchUserQuota_body, tx_bind, tx_read.
    destruct (hasQuota userId quota db); [done|].
    by destruct (feature_findFirst_id (quota_definition quota) db) as [[]|].
  - intros e He.
    destruct (addUserFeatures userId features0 clock db) as [db' res] eqn:Hcall.
    simpl in *. subst res. by apply (proj1 (transaction_Err _ _ _ _)) in Hcall as [-> _].
  - intros Hok.
    destruct (addUserFeatures userId features0 clock db) as [db' res] eqn:Hcall.
    simpl in *. subst res. by apply (proj1 (transaction_Ok _ _ _ _)) in Hcall.
Qed.

Lemma ledger_mutations_atomic_witness :
  fst (addUserFeatures "u1" [FeatureType.Copilot; FeatureType.Admin] (λ _, 5)
         two_versions_db)
  = two_versions_db.
Proof.
  apply (proj1 (proj2 (proj2 (proj2 (ledger_mutations_atomic "u1" "lifetime" None
                                       None [FeatureType.Copilot; FeatureType.Admin]
                                       5 (λ _, 5) two_versions_db))))
           (FeatureNotFound "administrator")).
  vm_compute. reflexivity.
Defined.

(** In that call the loop had inserted the copilot record before it threw;
    the transaction took the record back. *)
Example addUserFeatures_rolls_back :
  let body := addUserFeatures_loop "u1" (λ _, 5)
                [FeatureType.Copilot; FeatureType.Admin] two_versions_db in
  userFeatures (fst body) = [mkUserFeature 1 "u1" 3 "sign up" 5 None true]
  ∧ snd body = Err (FeatureNotFound "administrator")
  ∧ userFeatures
      (fst (addUserFeatures "u1" [FeatureType.Copilot; FeatureType.Admin] (λ _, 5)
              two_versions_db)) = [].
Proof. vm_compute. auto. Qed.

(** ** The read side *)

Lemma omap_id_fmap {A B} (f : A → option B) (l : list A) :
  omap id (f <$> l) = omap f l.
Proof.
  induction l as [|x l IH]; [done|]. csimpl. rewrite IH. by destruct (f x).
Qed.

Lemma id_lt_same_id l x y :
  StronglySorted id_lt l → x ∈ l → y ∈ l → uf_id x = uf_id y → x = y.
Proof.
  induction 1 as [|z l Hsorted IH Hall]; intros Hx Hy Hid.
  - by apply elem_of_nil in Hx.
  - rewrite Forall_forall in Hall. unfold id_lt in Hall.
    apply elem_of_cons in Hx as [->|Hx]; apply elem_of_cons in Hy as [->|Hy].
    + done.
    + specialize (Hall _ Hy). lia.
    + specialize (Hall _ Hx). lia.
    + by apply IH.
Qed.

Lemma id_lt_filter (P : UserFeature → Prop) `{∀ r, Decision (P r)} l :
  StronglySorted id_lt l → StronglySorted id_lt (filter P l).
Proof.
  induction 1 as [|z l Hsorted IH Hall]; [constructor|].
  rewrite filter_cons. case_decide; [|done].
  constructor; [done|].
  rewrite Forall_forall in *. intros y [_ Hy]%list_elem_of_filter. by apply Hall.
Qed.

Lemma id_lt_id_asc l : StronglySorted id_lt l → StronglySorted id_asc l.
Proof.
  induction 1 as [|z l Hsorted IH Hall]; constructor; [done|].
  eapply Forall_impl; [exact Hall|]. unfold id_lt, id_asc. intros; lia.
Qed.

(** The two writes to the ledger keep its ids growing. *)
Lemma userFeature_create_id_lt userId featureId reason activated expiredAt now db :
  StronglySorted id_lt (userFeatures db) →
  StronglySorted id_lt
    (userFeatures (userFeature_create userId featureId reason activated expiredAt
                     now db)).
Proof.
  intros Hids. unfold userFeature_create. simpl.
  apply StronglySorted_app_2; [|done|repeat constructor].
  intros x y Hx Hy. apply list_elem_of_singleton in Hy as ->.
  unfold id_lt. simpl. by apply next_userFeature_id_above.
Qed.

Lemma userFeature_deactivateMany_id_lt (W : Db → UserFeature → Prop)
    `{∀ db r, Decision (W db r)} db :
  StronglySorted id_lt (userFeatures db) →
  StronglySorted id_lt (userFeatures (userFeature_deactivateMany W db)).
Proof.
  unfold userFeature_deactivateMany. simpl.
  apply StronglySorted_fmap. intros x y. unfold id_lt.
  by do 2 case_decide.
Qed.

(** Sorting by id does not move the rows of a list whose ids grow. *)
Lemma merge_sort_id_asc_sorted l :
  StronglySorted id_lt l → merge_sort id_asc l = l.
Proof.
  intros Hids.
  pose proof (merge_sort_Permutation id_asc l) as Hperm.
  apply (StronglySorted_unique_strong id_asc); [| |by apply id_lt_id_asc|done].
  - intros x y Hx Hy Hxy Hyx. rewrite Hperm in Hx.
    apply (id_lt_same_id _ _ _ Hids Hx Hy). unfold id_asc in *. lia.
  - apply StronglySorted_merge_sort; apply _.
Qed.




Section reads.
Context (QuotaTypeValues : list string) (QuotaConfig : Type)
  (get : Db → Z → Result QuotaConfig).


(** C6. [getUserQuotas] never fails.  It takes the records of the account
    whose definition is of Quota kind, in ascending order of their row
    ids, which is the order of insertion when the ids of the ledger grow
    with each insertion, and returns each of them with the definition
    [QuotaConfig.get] resolves for it; a record for which
    [QuotaConfig.get] fails is left out of the result. *)
Theorem getUserQuotas_ordered_and_tolerant (userId : string) (db : Db) :
  let rows := userFeature_findMany_orderBy_id (userQuota_where userId) db in
  getUserQuotas QuotaConfig get userId db
  = (db, Ok (omap (with_config QuotaConfig get db) rows))
  ∧ rows ≡ₚ filter (userQuota_where userId db) (userFeatures db)
  ∧ StronglySorted id_asc rows
  ∧ (StronglySorted id_lt (userFeatures db) →
     rows = filter (userQuota_where userId db) (userFeatures db))
  ∧ ∀ q, q ∈ omap (with_config QuotaConfig get db) rows ↔
         ∃ r feature,
           r ∈ userFeatures db
           ∧ userQuota_where userId db r
           ∧ get db (uf_featureId r) = Ok feature
           ∧ q = mkQuotaRecord (uf_activated r) (uf_reason r) (uf_createdAt r)
                   (uf_expiredAt r) (uf_featureId r) feature.
Proof.
  cbv zeta. unfold userFeature_findMany_orderBy_id.
  pose proof (merge_sort_Permutation id_asc
                (filter (userQuota_where userId db) (userFeatures db))) as Hperm.
  pose proof (StronglySorted_merge_sort id_asc
                (filter (userQuota_where userId db) (userFeatures db))) as Hsorted.
  split_and!; [|done|done|..].
  - unfold getUserQuotas, tx_bind, tx_read, tx_ret, userFeature_findMany_orderBy_id.
    by rewrite omap_id_fmap.
  - intros Hids. by apply merge_sort_id_asc_sorted, id_lt_filter.
  - intros q. rewrite list_elem_of_omap. split.
    + intros (r & Hr & Hq). rewrite Hperm in Hr.
      apply list_elem_of_filter in Hr as [Hw Hr].
      unfold with_config in Hq.
      destruct (get db (uf_featureId r)) as [feature|] eqn:Hget; simplify_eq.
      by exists r, feature.
    + intros (r & feature & Hr & Hw & Hget & ->). exists r. split.
      * rewrite Hperm. by apply list_elem_of_filter.
      * unfold with_config. by rewrite Hget.
Qed.
End reads.


Lemma getUserQuotas_ordered_and_tolerant_witness :
  userFeature_findMany_orderBy_id (userQuota_where "u1") upgraded_db
  = filter (userQuota_where "u1" upgraded_db) (userFeatures upgraded_db).
Proof.
  apply (proj1 (proj2 (proj2 (proj2
           (getUserQuotas_ordered_and_tolerant CommonFeature pruned_get "u1"
              upgraded_db))))).
  apply (bool_decide_unpack _). vm_compute. exact I.
Defined.

(** With a resolver that does not resolve definition 1, the query for u1
    succeeds and returns the team record alone. *)
Example getUserQuotas_omits_unresolved :
  snd (getUserQuotas CommonFeature pruned_get "u1" upgraded_db)
  = Ok [ mkQuotaRecord true "upgrade" 20 None 2
           (mkFeature "team_workspace" FeatureKind.Quota 1 []) ]
  ∧ snd (getUserQuotas CommonFeature QuotaConfig_get "u1" upgraded_db)
    = Ok [ mkQuotaRecord false "sign up" 10 None 1
             (mkFeature "personal_workspace" FeatureKind.Quota 1 []);
           mkQuotaRecord true "upgrade" 20 None 2
             (mkFeature "team_workspace" FeatureKind.Quota 1 []) ].
Proof. vm_compute. auto. Qed.

(** ** [fulfillUser] and the ledger *)

Lemma deactivate_inactive r : uf_activated r = false → deactivate r = r.
Proof. destruct r. simpl. by intros ->. Qed.


Lemma user_update_store id data db db' updated :
  user_update id data db = (db', Ok updated) →
  features db' = features db ∧ userFeatures db' = userFeatures db ∧ u_id updated = id.
Proof.
  unfold user_update. intros Hupdate.
  destruct (filter (λ u, u_id u = id) (users db)) as [|u t] eqn:Hfilter; [done|].
  case_decide; simplify_eq. split_and!; [done..|]. simpl.
  assert (u ∈ filter (λ u, u_id u = id) (users db)) as Hin by (rewrite Hfilter; left).
  by apply list_elem_of_filter in Hin as [? _].
Qed.

Section fulfillUser.
Context (assertValidEmail : string → bool)
  (assertValidPassword : string → Z → Z → bool)
  (password_max password_min : Z) (encryptPassword : string → string)
  (registered_default : bool).

End fulfillUser.


(** In [fulfill_db] the quota record and the copilot record of u1 are
    inactive after [fulfillUser], the record of u2 is as it was, and the one
    active record of u1 is the new grant of the personal workspace. *)
Example fulfillUser_example :
  userFeatures
    (fst (fulfillUser (λ _, true) (λ _ _ _, true) 32 8 (λ p, p) true
            "Ann@Example.com" UserGroup.User rename_to_anna "u9" (λ _, 30) fulfill_db))
  = [ mkUserFeature 1 "u1" 10 "sign up" 10 None false;
      mkUserFeature 2 "u1" 1 "subscription activated" 11 None false;
      mkUserFeature 3 "u2" 1 "subscription activated" 12 None true;
      mkUserFeature 4 "u1" 8 "sign up" 30 None true ].
Proof. vm_compute. reflexivity. Qed.

(** ** The scenario of the upgrade to the team quota *)

(** Every definition the migration builds from the catalog is of Feature
    kind. *)
Lemma catalog_registry_kind OneMB OneGB OneDay id f :
  features (up (Features OneMB OneGB OneDay) empty_db) !! id = Some f →
  f_type f = FeatureKind.Feature.
Proof.
  revert id f.
  change (map_Forall (λ _ f, f_type f = FeatureKind.Feature)
            (features (up (Features OneMB OneGB OneDay) empty_db))).
  apply (bool_decide_unpack _). vm_compute. exact I.
Qed.

Lemma filter_fmap_commute {A} (P : A → Prop) `{∀ x, Decision (P x)}
    (g : A → A) (l : list A) :
  (∀ x, P (g x) ↔ P x) → filter P (g <$> l) = g <$> filter P l.
Proof.
  intros Hg. induction l as [|x l IH]; [done|]. csimpl.
  rewrite !filter_cons, IH.
  destruct (decide (P x)) as [HP|HP].
  - rewrite decide_True by by apply Hg. done.
  - rewrite decide_False; [done|]. by rewrite Hg.
Qed.

(** With the catalog as the registry and the account that [fulfillUser]
    creates in the group of plain users, whose one record is the active
    grant of the personal workspace, the switch to the team workspace
    fails. *)
Lemma catalog_switch_to_team_fails :
  features catalog_account_db
  = features (up (Features 1048576 1073741824 86400000) empty_db)
  ∧ userFeatures catalog_account_db = [mkUserFeature 1 "acct" 8 "sign up" 1 None true]
  ∧ features catalog_account_db !! 8
    = Some (personal_workspace_v1 1048576 1073741824 86400000)
  ∧ ¬ is_Ok (snd (switchUserQuota "acct" "team_workspace" (Some "upgrade") None 2
                    catalog_account_db))
  ∧ switchUserQuota "acct" "team_workspace" (Some "upgrade") None 2 catalog_account_db
    = (catalog_account_db, Err (QuotaNotFound "team_workspace")).
Proof.
  split_and!.
  - vm_compute. reflexivity.
  - vm_compute. reflexivity.
  - vm_compute. reflexivity.
  - vm_compute. intros [].
  - vm_compute. reflexivity.
Qed.

Lemma getUserQuota_where_features values userId db db' r :
  features db' = features db →
  getUserQuota_where values userId db' r ↔ getUserQuota_where values userId db r.
Proof.
  intros Hf. unfold getUserQuota_where. by rewrite (feature_is_features db db' _ r Hf).
Qed.

Lemma userQuota_where_features userId db db' r :
  features db' = features db →
  userQuota_where userId db' r ↔ userQuota_where userId db r.
Proof.
  intros Hf. unfold userQuota_where. by rewrite (feature_is_features db db' _ r Hf).
Qed.

Section upgrade.
Context (OneMB OneGB OneDay : Z) (QuotaTypeValues : list string)
  (acct : string) (now : Z) (db : Db) (pid tid : Z) (r0 : UserFeature).

Let personal := as_quota (personal_workspace_v1 OneMB OneGB OneDay).
Let team := as_quota (team_workspace_v1 OneMB OneGB OneDay).

Hypothesis Hpersonal : features db !! pid = Some personal.
Hypothesis Hteam : features db !! tid = Some team.
Hypothesis Htid : tid ≠ 0.
Hypothesis Honly :
  ∀ id f, features db !! id = Some f → quota_definition "team_workspace" f → id = tid.
Hypothesis Hvalue : "team_workspace" ∈ QuotaTypeValues.
Hypothesis Hkinds :
  ∀ id f, features db !! id = Some f → f_feature f ∈ QuotaTypeValues →
          f_type f = FeatureKind.Quota.
Hypothesis Hrecords : filter (userQuota_where acct db) (userFeatures db) = [r0].
Hypothesis Hr0 : uf_featureId r0 = pid.

Let db' := switched acct tid (Some "upgrade") None now db.
Let record := switch_record acct tid (Some "upgrade") None now db.

Lemma upgrade_r0 : r0 ∈ userFeatures db ∧ userQuota_where acct db r0.
Proof.
  assert (r0 ∈ filter (userQuota_where acct db) (userFeatures db)) as Hin.
  { rewrite Hrecords. left. }
  apply list_elem_of_filter in Hin. tauto.
Qed.

Lemma upgrade_hasQuota : hasQuota acct "team_workspace" db = false.
Proof.
  apply hasQuota_false. intros r Hin (Hu & Hf & _).
  assert (r ∈ filter (userQuota_where acct db) (userFeatures db)) as Hr.
  { apply list_elem_of_filter. split; [|done]. split; [done|].
    unfold feature_is in *. destruct (features db !! uf_featureId r); [|done].
    by destruct Hf. }
  rewrite Hrecords in Hr. apply list_elem_of_singleton in Hr as ->.
  unfold feature_is in Hf. rewrite Hr0, Hpersonal in Hf. by destruct Hf.
Qed.

Lemma upgrade_find :
  feature_findFirst_id (quota_definition "team_workspace") db = Some tid.
Proof.
  destruct (feature_findFirst_id (quota_definition "team_workspace") db)
    as [id|] eqn:Hfind.
  - destruct (feature_findFirst_id_Some _ _ _ Hfind) as (f & Hlook & Hdef & _).
    f_equal. by apply (Honly id f).
  - rewrite feature_findFirst_id_None in Hfind. by destruct (Hfind tid team).
Qed.

Lemma upgrade_switch :
  switchUserQuota acct "team_workspace" (Some "upgrade") None now db = (db', Ok ()).
Proof.
  apply switchUserQuota_switch; [apply upgrade_hasQuota|apply upgrade_find|done].
Qed.

Lemma upgrade_getUserQuota :
  getUserQuota QuotaTypeValues CommonFeature QuotaConfig_get acct db'
  = (db', Ok (mkActiveQuota "upgrade" now None tid team)).
Proof.
  unfold getUserQuota, tx_bind, tx_read, userFeature_findFirst.
  assert (filter (getUserQuota_where QuotaTypeValues acct db') (userFeatures db')
          = [record]) as ->.
  { rewrite (list_filter_iff _ (getUserQuota_where QuotaTypeValues acct db))
      by (intros r; by apply getUserQuota_where_features).
    unfold db'. rewrite userFeatures_switched, filter_app, filter_fmap_none.
    - rewrite filter_cons, decide_True; [done|].
      unfold getUserQuota_where, feature_is, switch_record. simpl.
      by rewrite Hteam.
    - intros r _ (Hu & Hf & Hact). unfold switch_deactivate in *.
      case_decide as Hd; [done|]. apply Hd. split; [done|].
      unfold feature_is in *.
      destruct (features db !! uf_featureId r) as [f|] eqn:Hlook; [|done].
      by apply (Hkinds (uf_featureId r) f). }
  simpl. unfold tx_query, QuotaConfig_get. simpl. rewrite Hteam. done.
Qed.

Lemma upgrade_getUserQuotas :
  getUserQuotas CommonFeature QuotaConfig_get acct db'
  = (db', Ok [ mkQuotaRecord false (uf_reason r0) (uf_createdAt r0)
                 (uf_expiredAt r0) pid personal;
               mkQuotaRecord true "upgrade" now None tid team ]).
Proof.
  destruct upgrade_r0 as [Hin Hw].
  unfold getUserQuotas, tx_bind, tx_read, tx_ret, userFeature_findMany_orderBy_id.
  assert (filter (userQuota_where acct db') (userFeatures db')
          = [deactivate r0; record]) as ->.
  { rewrite (list_filter_iff _ (userQuota_where acct db))
      by (intros r; by apply userQuota_where_features).
    unfold db'. rewrite userFeatures_switched, filter_app, filter_fmap_commute.
    - rewrite Hrecords. csimpl. unfold switch_deactivate at 1.
      rewrite decide_True by done.
      rewrite filter_cons, decide_True; [done|].
      unfold userQuota_where, feature_is, switch_record. simpl.
      by rewrite Hteam.
    - intros r. unfold switch_deactivate. by case_decide. }
  rewrite merge_sort_id_asc_sorted.
  - unfold with_config, QuotaConfig_get. simpl. by rewrite Hr0, Hpersonal, Hteam.
  - repeat constructor. unfold id_lt. simpl. by apply next_userFeature_id_above.
Qed.
End upgrade.

(** C2, as amended. With the registry the migration builds from the
    compiled-in catalog, where Personal v1 and Team v1 are of Feature kind,
    [switchUserQuota(acct, Team, "upgrade")] fails with "Quota
    team_workspace not found" and leaves the store as it was.  With a
    registry where Personal v1 and Team v1 are of Quota kind, Team v1 being
    the one quota definition of its name, and where the names of [QuotaType]
    are names of quota definitions, for an account whose one quota record
    references Personal the call succeeds; afterwards [getUserQuota] returns
    the Team definition, whose [storageQuota] is 100 GB, and [getUserQuotas]
    returns two records, the first of them the Personal record with
    [activated] false and the second the new Team record. *)
Theorem switchUserQuota_personal_to_team
    (OneMB OneGB OneDay : Z) (QuotaTypeValues : list string) (acct : string)
    (now : Z) (db : Db) :
  (features db = features (up (Features OneMB OneGB OneDay) empty_db) →
   switchUserQuota acct "team_workspace" (Some "upgrade") None now db
   = (db, Err (QuotaNotFound "team_workspace")))
  ∧ ∀ (pid tid : Z) (r0 : UserFeature),
      let personal := as_quota (personal_workspace_v1 OneMB OneGB OneDay) in
      let team := as_quota (team_workspace_v1 OneMB OneGB OneDay) in
      features db !! pid = Some personal →
      features db !! tid = Some team →
      tid ≠ 0 →
      map_Forall (λ id f, quota_definition "team_workspace" f → id = tid) (features db) →
      "team_workspace" ∈ QuotaTypeValues →
      map_Forall (λ _ f, f_feature f ∈ QuotaTypeValues → f_type f = FeatureKind.Quota)
        (features db) →
      filter (userQuota_where acct db) (userFeatures db) = [r0] →
      uf_featureId r0 = pid →
      let db' := switched acct tid (Some "upgrade") None now db in
      switchUserQuota acct "team_workspace" (Some "upgrade") None now db = (db', Ok ())
      ∧ getUserQuota QuotaTypeValues CommonFeature QuotaConfig_get acct db'
        = (db', Ok (mkActiveQuota "upgrade" now None tid team))
      ∧ config_get "storageQuota" (f_configs team) = Some (CNum (100 * OneGB))
      ∧ getUserQuotas CommonFeature QuotaConfig_get acct db'
        = (db', Ok [ mkQuotaRecord false (uf_reason r0) (uf_createdAt r0)
                       (uf_expiredAt r0) pid personal;
                     mkQuotaRecord true "upgrade" now None tid team ]).
Proof.
  split.
  - intros Hcatalog. apply switchUserQuota_no_definition.
    intros id f Hlook [_ Hkind]. rewrite Hcatalog in Hlook.
    apply catalog_registry_kind in Hlook. congruence.
  - intros pid tid r0 personal team Hpersonal Hteam Htid Honly Hvalue Hkinds Hrecords
      Hr0 db'.
    split_and!.
    + by eapply upgrade_switch.
    + by eapply upgrade_getUserQuota.
    + reflexivity.
    + by eapply upgrade_getUserQuotas.
Qed.

Lemma switchUserQuota_personal_to_team_witness :
  let db' := switched "acct" 2 (Some "upgrade") None 20 quota_registry_db in
  let personal := as_quota (personal_workspace_v1 1048576 1073741824 86400000) in
  let team := as_quota (team_workspace_v1 1048576 1073741824 86400000) in
  switchUserQuota "acct" "team_workspace" (Some "upgrade") None 20 quota_registry_db
  = (db', Ok ())
  ∧ getUserQuota example_QuotaTypeValues CommonFeature QuotaConfig_get "acct" db'
    = (db', Ok (mkActiveQuota "upgrade" 20 None 2 team))
  ∧ config_get "storageQuota" (f_configs team) = Some (CNum (100 * 1073741824))
  ∧ getUserQuotas CommonFeature QuotaConfig_get "acct" db'
    = (db', Ok [ mkQuotaRecord false "sign up" 10 None 1 personal;
                 mkQuotaRecord true "upgrade" 20 None 2 team ]).
Proof.
  apply (proj2 (switchUserQuota_personal_to_team 1048576 1073741824 86400000
                  example_QuotaTypeValues "acct" 20 quota_registry_db)
           1 2 (mkUserFeature 1 "acct" 1 "sign up" 10 None true)).
  - reflexivity.
  - reflexivity.
  - discriminate.
  - apply (bool_decide_unpack _). vm_compute. exact I.
  - vm_compute. right. left.
  - apply (bool_decide_unpack _). vm_compute. exact I.
  - vm_compute. reflexivity.
  - reflexivity.
Defined.

(** * Further properties of the services *)

(** ** [hasQuota] and [getUserQuotas] around a switch *)

Lemma hasQuota_where_active userId quota db r :
  hasQuota_where userId quota db r →
  active_quota_where userId db r
  ∧ ∃ f, features db !! uf_featureId r = Some f ∧ f_feature f = quota.
Proof.
  intros (Hu & Hf & Hact). unfold active_quota_where, userQuota_where, feature_is in *.
  destruct (features db !! uf_featureId r) as [f|]; [|done].
  destruct Hf as [Hname Hkind]. split; [done|]. by exists f.
Qed.

(** With at most one active quota record, at most one quota name is
    active. *)
Lemma hasQuota_unique userId q q' db :
  (length (active_quotas userId db) ≤ 1)%nat →
  hasQuota userId q db = true → hasQuota userId q' db = true → q = q'.
Proof.
  intros Hone (r & Hin & Hw)%hasQuota_true (r' & Hin' & Hw')%hasQuota_true.
  apply hasQuota_where_active in Hw as (Ha & f & Hlook & <-).
  apply hasQuota_where_active in Hw' as (Ha' & f' & Hlook' & <-).
  assert (r ∈ active_quotas userId db) as Hr by by apply list_elem_of_filter.
  assert (r' ∈ active_quotas userId db) as Hr' by by apply list_elem_of_filter.
  destruct (active_quotas userId db) as [|x [|y t]]; simpl in Hone; [|..|lia].
  - by apply elem_of_nil in Hr.
  - apply list_elem_of_singleton in Hr, Hr'. congruence.
Qed.

Lemma switchUserQuota_Ok_hasQuota userId quota reason expiredAt now db db' :
  switchUserQuota userId quota reason expiredAt now db = (db', Ok ()) →
  hasQuota userId quota db' = true.
Proof.
  intros Hcall.
  destruct (switchUserQuota_cases userId quota reason expiredAt now db)
    as [[Hh Hr] | [(_ & _ & Hr) | (_ & featureId & f & _ & _ & Hlook & Hdef & Hr)]];
    rewrite Hr in Hcall; simplify_eq; [done|].
  by apply (hasQuota_switched _ _ _ _ _ _ _ f).
Qed.

(** X1. After a call of [switchUserQuota] that succeeds, for an account
    that had at most one active quota record, [hasQuota] is true for the
    requested quota and false for every other name: the quota the account
    had before is gone. *)
Theorem hasQuota_after_switch
    (userId quota : string) (reason : option string) (expiredAt : option Z)
    (now : Z) (db db' : Db) :
  (length (active_quotas userId db) ≤ 1)%nat →
  switchUserQuota userId quota reason expiredAt now db = (db', Ok ()) →
  ∀ q, hasQuota userId q db' = true ↔ q = quota.
Proof.
  intros Hone Hcall q.
  pose proof (switchUserQuota_Ok_hasQuota _ _ _ _ _ _ _ Hcall) as Hquota.
  pose proof (switchUserQuota_step_at_most_one userId userId quota reason expiredAt
                now db Hone) as Hone'.
  rewrite Hcall in Hone'. simpl in Hone'.
  split; [|by intros ->].
  intros Hq. by apply (hasQuota_unique userId q quota db').
Qed.

Lemma hasQuota_after_switch_witness :
  hasQuota "u1" "personal_workspace" upgraded_db = true
  ↔ "personal_workspace" = "team_workspace".
Proof.
  apply (hasQuota_after_switch "u1" "team_workspace" (Some "upgrade") None 20
           example_db upgraded_db).
  - vm_compute. lia.
  - vm_compute. reflexivity.
Defined.

(** What a switch of one account leaves of the rows of another account
    that a query selects. *)
Lemma filter_switched_other (W : Db → UserFeature → Prop)
    `{∀ db r, Decision (W db r)} acct userId featureId reason expiredAt now db :
  (∀ d d' r, features d' = features d → W d' r ↔ W d r) →
  (∀ d r, W d r → uf_userId r = acct) →
  acct ≠ userId →
  filter (W (switched userId featureId reason expiredAt now db))
    (userFeatures (switched userId featureId reason expiredAt now db))
  = filter (W db) (userFeatures db).
Proof.
  intros Hext Hacct Hne.
  rewrite (list_filter_iff _ (W db)) by (intros r; by apply Hext).
  rewrite userFeatures_switched, filter_app.
  rewrite filter_cons, decide_False, filter_nil, app_nil_r.
  - apply filter_fmap_unchanged. intros r _. unfold switch_deactivate.
    case_decide as Hd; [right|by left].
    destruct Hd as [Hu _].
    split; intros Hw%Hacct; simpl in Hw; congruence.
  - intros Hw%Hacct. simpl in Hw. congruence.
Qed.

(** X2. A call of [switchUserQuota] for one account, whether it succeeds or
    fails, changes no answer of [hasQuota] about another account, and leaves
    the quota rows of the other account as they were. *)
Theorem switchUserQuota_other_account
    (userId quota : string) (reason : option string) (expiredAt : option Z)
    (now : Z) (db : Db) (acct q : string) :
  acct ≠ userId →
  hasQuota acct q (fst (switchUserQuota userId quota reason expiredAt now db))
  = hasQuota acct q db
  ∧ quota_rows acct (fst (switchUserQuota userId quota reason expiredAt now db))
    = quota_rows acct db.
Proof.
  intros Hne.
  destruct (switchUserQuota_cases userId quota reason expiredAt now db)
    as [[_ ->] | [(_ & _ & ->) | (_ & featureId & f & _ & _ & _ & _ & ->)]];
    cbn [fst]; [done..|].
  unfold hasQuota, userFeature_count, quota_rows, userFeature_findMany_orderBy_id.
  rewrite !(filter_switched_other _ acct); try done.
  - intros d d' r Hf. unfold userQuota_where. by rewrite (feature_is_features d d' _ r Hf).
  - by intros d r [? _].
  - intros d d' r Hf. unfold hasQuota_where. by rewrite (feature_is_features d d' _ r Hf).
  - by intros d r (? & _).
Qed.

Lemma switchUserQuota_other_account_witness :
  hasQuota "u2" "team_workspace" upgraded_db = hasQuota "u2" "team_workspace" example_db
  ∧ quota_rows "u2" upgraded_db = quota_rows "u2" example_db.
Proof.
  apply (switchUserQuota_other_account "u1" "team_workspace" (Some "upgrade") None 20
           example_db "u2" "team_workspace").
  discriminate.
Defined.

(** X3. [hasQuota] never looks at [expiredAt]: whatever expiry times the
    records of the ledger are given, its answer is the same, so a quota
    whose expiry time has passed still counts as active. *)
Theorem hasQuota_ignores_expiry
    (userId quota : string) (expiry : UserFeature → option Z) (db : Db) :
  hasQuota userId quota
    (set_userFeatures ((λ r, with_expiredAt (expiry r) r) <$> userFeatures db) db)
  = hasQuota userId quota db.
Proof.
  unfold hasQuota, userFeature_count. simpl.
  rewrite (list_filter_iff _ (hasQuota_where userId quota db)) by done.
  rewrite filter_fmap_commute by done.
  by rewrite length_fmap.
Qed.

Lemma switched_id_lt userId featureId reason expiredAt now db :
  StronglySorted id_lt (userFeatures db) →
  StronglySorted id_lt (userFeatures (switched userId featureId reason expiredAt now db)).
Proof.
  intros Hids. unfold switched.
  by apply userFeature_create_id_lt, userFeature_deactivateMany_id_lt.
Qed.

Lemma quota_rows_sorted userId db :
  StronglySorted id_lt (userFeatures db) →
  quota_rows userId db = filter (userQuota_where userId db) (userFeatures db).
Proof.
  intros Hids. unfold quota_rows, userFeature_findMany_orderBy_id.
  by apply merge_sort_id_asc_sorted, id_lt_filter.
Qed.

(** X4. In a ledger whose row ids grow with each insertion, a call of
    [switchUserQuota] that writes makes the history [getUserQuotas] reads
    one row longer: the rows the account had, all of them now inactive, in
    their order, followed by the new active row. *)
Theorem quota_history_after_switch
    (QuotaConfig : Type) (get : Db → Z → Result QuotaConfig)
    (userId quota : string) (reason : option string) (expiredAt : option Z)
    (now : Z) (db db' : Db) :
  StronglySorted id_lt (userFeatures db) →
  hasQuota userId quota db = false →
  switchUserQuota userId quota reason expiredAt now db = (db', Ok ()) →
  ∃ featureId,
    quota_rows userId db'
    = (deactivate <$> quota_rows userId db)
      ++ [switch_record userId featureId reason expiredAt now db]
    ∧ getUserQuotas QuotaConfig get userId db'
      = (db', Ok (omap (with_config QuotaConfig get db')
                    ((deactivate <$> quota_rows userId db)
                     ++ [switch_record userId featureId reason expiredAt now db]))).
Proof.
  intros Hids Hhas Hcall.
  destruct (switchUserQuota_cases userId quota reason expiredAt now db)
    as [[Hh _] | [(_ & _ & Hr) | (_ & featureId & f & _ & _ & Hlook & [_ Hkind] & Hr)]];
    [congruence|rewrite Hr in Hcall; simplify_eq|].
  rewrite Hr in Hcall. simplify_eq. exists featureId.
  assert (quota_rows userId (switched userId featureId reason expiredAt now db)
          = (deactivate <$> quota_rows userId db)
            ++ [switch_record userId featureId reason expiredAt now db]) as Hrows.
  { rewrite !quota_rows_sorted by (done || by apply switched_id_lt).
    rewrite (list_filter_iff _ (userQuota_where userId db))
      by (intros r; by apply userQuota_where_features).
    rewrite userFeatures_switched, filter_app, filter_fmap_commute.
    - f_equal.
      + apply list_fmap_ext. intros _ r Hr'%list_elem_of_lookup_2.
        apply list_elem_of_filter in Hr' as [Hw _].
        unfold switch_deactivate. by rewrite decide_True.
      + rewrite filter_cons, decide_True; [done|].
        unfold userQuota_where, feature_is, switch_record. simpl. by rewrite Hlook.
    - intros r. unfold switch_deactivate. by case_decide. }
  split; [done|].
  unfold getUserQuotas, tx_bind, tx_read, tx_ret.
  fold (quota_rows userId (switched userId featureId reason expiredAt now db)).
  by rewrite Hrows, omap_id_fmap.
Qed.

Lemma quota_history_after_switch_witness :
  ∃ featureId,
    quota_rows "u1" upgraded_db
    = (deactivate <$> quota_rows "u1" example_db)
      ++ [switch_record "u1" featureId (Some "upgrade") None 20 example_db]
    ∧ getUserQuotas CommonFeature pruned_get "u1" upgraded_db
      = (upgraded_db,
         Ok (omap (with_config CommonFeature pruned_get upgraded_db)
               ((deactivate <$> quota_rows "u1" example_db)
                ++ [switch_record "u1" featureId (Some "upgrade") None 20 example_db]))).
Proof.
  apply (quota_history_after_switch CommonFeature pruned_get "u1" "team_workspace"
           (Some "upgrade") None 20 example_db upgraded_db).
  - apply (bool_decide_unpack _). vm_compute. exact I.
  - vm_compute. reflexivity.
  - vm_compute. reflexivity.
Defined.

(** ** [addUserFeatures]: what it adds, when it fails, what it keeps *)

Lemma addUserFeatures_loop_added userId now batch :
  ∀ db db1 res,
    addUserFeatures_loop userId now batch db = (db1, res) →
    features db1 = features db
    ∧ users db1 = users db
    ∧ ∃ added,
        userFeatures db1 = userFeatures db ++ added
        ∧ Forall (granted_record userId now batch db) added.
Proof.
  revert now. induction batch as [|g rest IH]; intros now db db1 res Hloop.
  - simpl in Hloop. unfold tx_ret in Hloop. simplify_eq.
    split_and!; [done..|]. exists []. by rewrite app_nil_r.
  - assert (∀ d r, granted_record userId (λ k, now (S k)) rest d r →
                   granted_record userId now (g :: rest) d r) as Hweaken.
    { intros d r (? & ? & ? & (k & Hk & ?) & ? & f & x & Hin & ?).
      split_and!; [done..| |done|].
      - exists (S k). split; [simpl; lia|done].
      - exists f, x. split; [by right|done]. }
    destruct (decide (active_grants userId g db = [])) as [Hactive|Hactive].
    + destruct (feature_findFirst_id (feature_definition (FeatureType.value g)) db)
        as [featureId|] eqn:Hfind.
      * destruct (decide (featureId = 0)) as [->|Hne].
        { rewrite addUserFeatures_loop_not_found in Hloop by auto. simplify_eq.
          split_and!; [done..|]. exists []. by rewrite app_nil_r. }
        rewrite (addUserFeatures_loop_insert _ _ _ _ _ featureId) in Hloop by done.
        destruct (feature_findFirst_id_Some _ _ _ Hfind) as (d & Hlook & Hdef & Hmax).
        destruct (IH _ _ _ _ Hloop) as (Hf & Hu & added & Hadded & Hall).
        split_and!; [done..|]. eexists (_ :: added). split.
        { rewrite Hadded. unfold userFeature_create. simpl. by rewrite <- app_assoc. }
        constructor.
        { unfold granted_record. simpl. split_and!; [done..| |done|].
          - exists 0%nat. split; [lia|done].
          - exists g, d. split; [by left|done]. }
        eapply Forall_impl; [exact Hall|]. intros r Hr. apply Hweaken.
        destruct Hr as (? & ? & ? & ? & ? & f & x & ? & ? & ? & ?).
        split_and!; [done..|]. by exists f, x.
      * rewrite addUserFeatures_loop_not_found in Hloop by auto. simplify_eq.
        split_and!; [done..|]. exists []. by rewrite app_nil_r.
    + rewrite addUserFeatures_loop_skip in Hloop by done.
      destruct (IH _ _ _ _ Hloop) as (Hf & Hu & added & Hadded & Hall).
      split_and!; [done..|]. exists added. split; [done|].
      eapply Forall_impl; [exact Hall|]. intros r. apply Hweaken.
Qed.

Lemma addUserFeatures_added userId batch now db db1 res :
  addUserFeatures userId batch now db = (db1, res) →
  features db1 = features db
  ∧ users db1 = users db
  ∧ ∃ added,
      userFeatures db1 = userFeatures db ++ added
      ∧ Forall (granted_record userId now batch db) added.
Proof.
  unfold addUserFeatures. intros Hcall. destruct res as [[]|e].
  - apply (proj1 (transaction_Ok _ _ _ _)) in Hcall.
    by apply addUserFeatures_loop_added in Hcall.
  - apply (proj1 (transaction_Err _ _ _ _)) in Hcall as [-> _].
    split_and!; [done..|]. exists []. by rewrite app_nil_r.
Qed.

(** X5. [addUserFeatures] only appends to the ledger: it leaves the
    registry and the accounts as they were, every record that was in the
    ledger stays in its place with all its fields, and every record it adds
    is a record of the account of the call, active, with the reason
    "sign up" and no expiry; its creation time is the time of the database
    in one of the rounds of the loop, which need not be the same for two
    records of one call. *)
Theorem addUserFeatures_only_appends
    (userId : string) (batch : list FeatureType.t) (now : nat → Z) (db : Db) :
  let db1 := fst (addUserFeatures userId batch now db) in
  features db1 = features db
  ∧ users db1 = users db
  ∧ (∀ (i : nat) (r : UserFeature),
       userFeatures db !! i = Some r → userFeatures db1 !! i = Some r)
  ∧ (∀ (i : nat) (r : UserFeature),
       userFeatures db1 !! i = Some r → (length (userFeatures db) ≤ i)%nat →
       uf_userId r = userId ∧ uf_activated r = true ∧ uf_reason r = "sign up"
       ∧ (∃ k, (k < length batch)%nat ∧ uf_createdAt r = now k)
       ∧ uf_expiredAt r = None).
Proof.
  cbv zeta.
  destruct (addUserFeatures userId batch now db) as [db1 res] eqn:Hcall. cbn [fst].
  destruct (addUserFeatures_added _ _ _ _ _ _ Hcall) as (Hf & Hu & added & Hl & Hall).
  split_and!; [done..| |].
  - intros i r Hi. rewrite Hl. by apply lookup_app_l_Some.
  - intros i r Hi Hge. rewrite Hl, lookup_app_r in Hi by done.
    apply list_elem_of_lookup_2 in Hi. rewrite Forall_forall in Hall.
    destruct (Hall _ Hi) as (? & ? & ? & ? & ? & _). done.
Qed.

Lemma addUserFeatures_only_appends_witness :
  userFeatures (fst (addUserFeatures "u1" [FeatureType.Admin] (λ _, 40) fulfill_db))
    !! 1%nat
  = Some (mkUserFeature 2 "u1" 1 "subscription activated" 11 None true).
Proof.
  refine (proj1 (proj2 (proj2 (addUserFeatures_only_appends "u1" [FeatureType.Admin]
                                 (λ _, 40) fulfill_db))) 1%nat _ _).
  reflexivity.
Defined.

(** Two records of one call, each with the time of its own insert. *)
Example addUserFeatures_two_times :
  userFeatures
    (fst (addUserFeatures "acct" [FeatureType.EarlyAccess; FeatureType.Copilot]
            (λ k, 7 + Z.of_nat k) catalog_db))
  = [ mkUserFeature 1 "acct" 3 "sign up" 7 None true;
      mkUserFeature 2 "acct" 1 "sign up" 8 None true ].
Proof. vm_compute. reflexivity. Qed.

(** X6. Every record [addUserFeatures] adds references a definition of
    Feature kind that has the name of one of the features of the batch and
    the highest version among the definitions of Feature kind with that
    name. *)
Theorem addUserFeatures_latest_version
    (userId : string) (batch : list FeatureType.t) (now : nat → Z) (db : Db)
    (i : nat) (r : UserFeature) :
  userFeatures (fst (addUserFeatures userId batch now db)) !! i = Some r →
  (length (userFeatures db) ≤ i)%nat →
  ∃ f d,
    f ∈ batch
    ∧ features db !! uf_featureId r = Some d
    ∧ f_feature d = FeatureType.value f
    ∧ f_type d = FeatureKind.Feature
    ∧ ∀ id' d', features db !! id' = Some d' →
                feature_definition (FeatureType.value f) d' →
                f_version d' ≤ f_version d.
Proof.
  destruct (addUserFeatures userId batch now db) as [db1 res] eqn:Hcall. cbn [fst].
  destruct (addUserFeatures_added _ _ _ _ _ _ Hcall) as (_ & _ & added & Hl & Hall).
  intros Hi Hge. rewrite Hl, lookup_app_r in Hi by done.
  apply list_elem_of_lookup_2 in Hi. rewrite Forall_forall in Hall.
  destruct (Hall _ Hi) as (_ & _ & _ & _ & _ & f & d & Hin & Hlook & [Hn Hk] & Hmax).
  by exists f, d.
Qed.

Lemma addUserFeatures_latest_version_witness :
  ∃ f d,
    f ∈ [FeatureType.EarlyAccess]
    ∧ features catalog_db !! 3 = Some d
    ∧ f_feature d = FeatureType.value f
    ∧ f_type d = FeatureKind.Feature
    ∧ ∀ id' d', features catalog_db !! id' = Some d' →
                feature_definition (FeatureType.value f) d' →
                f_version d' ≤ f_version d.
Proof.
  apply (addUserFeatures_latest_version "acct" [FeatureType.EarlyAccess] (λ _, 1)
           catalog_db
           0%nat (mkUserFeature 1 "acct" 3 "sign up" 1 None true)).
  - vm_compute. reflexivity.
  - vm_compute. lia.
Defined.

Lemma snd_transaction {A} (body : Tx A) db :
  snd (transaction body db) = snd (body db).
Proof. unfold transaction. by destruct (body db) as [d [a|e]]. Qed.

Lemma grantable_created userId featureId now db g d f :
  features db !! featureId = Some d →
  feature_definition (FeatureType.value g) d →
  grantable userId (userFeature_create userId featureId "sign up" true None now db) f
  ↔ grantable userId db f.
Proof.
  intros Hlook Hdef. unfold grantable.
  destruct (decide (f = g)) as [->|Hne].
  - split; intros _; right; by exists featureId, d.
  - by rewrite (active_grants_created_other _ _ _ _ g d Hlook Hdef f Hne).
Qed.

Lemma addUserFeatures_loop_outcome userId now batch :
  ∀ db,
    features db !! 0 = None →
    (snd (addUserFeatures_loop userId now batch db) = Ok ()
     ↔ Forall (grantable userId db) batch)
    ∧ ∀ e, snd (addUserFeatures_loop userId now batch db) = Err e →
           ∃ f, f ∈ batch ∧ ¬ grantable userId db f
                ∧ e = FeatureNotFound (FeatureType.value f).
Proof.
  revert now. induction batch as [|g rest IH]; intros now db Hzero.
  { split; [by split|]. intros e He. simpl in He. by unfold tx_ret in He. }
  destruct (decide (active_grants userId g db = [])) as [Hactive|Hactive].
  - destruct (feature_findFirst_id (feature_definition (FeatureType.value g)) db)
      as [featureId|] eqn:Hfind.
    + destruct (feature_findFirst_id_Some _ _ _ Hfind) as (d & Hlook & Hdef & _).
      assert (featureId ≠ 0) as Hne by (intros ->; congruence).
      rewrite (addUserFeatures_loop_insert _ _ _ _ _ featureId) by done.
      destruct (IH (λ k, now (S k))
                  (userFeature_create userId featureId "sign up" true None
                     (now 0%nat) db))
        as [IHok IHerr]; [done|].
      assert (grantable userId db g) as Hg by (right; by exists featureId, d).
      split.
      * rewrite IHok, Forall_cons. split.
        -- intros Hall. split; [done|]. eapply Forall_impl; [exact Hall|].
           intros f. by apply grantable_created with g d.
        -- intros [_ Hall]. eapply Forall_impl; [exact Hall|].
           intros f. by apply grantable_created with g d.
      * intros e He. destruct (IHerr e He) as (f & Hin & Hnot & ->).
        exists f. split_and!; [by right| |done].
        intros Hf. apply Hnot. by apply grantable_created with g d.
    + rewrite addUserFeatures_loop_not_found by auto. cbn [snd].
      assert (¬ grantable userId db g) as Hnot.
      { intros [?|(id & d & Hlook & Hdef)]; [done|].
        rewrite feature_findFirst_id_None in Hfind. by apply (Hfind id d). }
      split.
      * split; [done|]. intros [Hg _]%Forall_cons. done.
      * intros e He. simplify_eq. exists g. split_and!; [by left|done..].
  - rewrite addUserFeatures_loop_skip by done.
    destruct (IH (λ k, now (S k)) db Hzero) as [IHok IHerr]. split.
    + rewrite IHok, Forall_cons. split; [|by intros [_ ?]].
      intros Hall. split; [by left|done].
    + intros e He. destruct (IHerr e He) as (f & Hin & Hnot & ->).
      exists f. split_and!; [by right|done..].
Qed.

(** X7. In a registry whose ids start above 0, [addUserFeatures] succeeds
    exactly when every name of the batch is actively granted to the account
    or has a definition of Feature kind; when it fails, it fails with
    "Feature ... not found" for a name of the batch that is neither. *)
Theorem addUserFeatures_succeeds_iff
    (userId : string) (batch : list FeatureType.t) (now : nat → Z) (db : Db) :
  features db !! 0 = None →
  (snd (addUserFeatures userId batch now db) = Ok ()
   ↔ Forall (grantable userId db) batch)
  ∧ ∀ e, snd (addUserFeatures userId batch now db) = Err e →
         ∃ f, f ∈ batch ∧ ¬ grantable userId db f
              ∧ e = FeatureNotFound (FeatureType.value f).
Proof.
  intros Hzero. unfold addUserFeatures. rewrite snd_transaction.
  by apply addUserFeatures_loop_outcome.
Qed.

Lemma addUserFeatures_succeeds_iff_witness :
  ∃ f, f ∈ [FeatureType.Copilot; FeatureType.Admin]
       ∧ ¬ grantable "u1" two_versions_db f
       ∧ FeatureNotFound "administrator" = FeatureNotFound (FeatureType.value f).
Proof.
  apply (proj2 (addUserFeatures_succeeds_iff "u1" [FeatureType.Copilot; FeatureType.Admin]
                  (λ _, 5) two_versions_db eq_refl)).
  vm_compute. reflexivity.
Defined.

(** X8. After a call of [addUserFeatures] that succeeds, every name of the
    batch is actively granted to the account. *)
Theorem addUserFeatures_grants_all
    (userId : string) (batch : list FeatureType.t) (now : nat → Z) (db db1 : Db) :
  addUserFeatures userId batch now db = (db1, Ok ()) →
  ∀ f, f ∈ batch → active_grants userId f db1 ≠ [].
Proof.
  unfold addUserFeatures. intros Hcall f Hin Hnil.
  apply (proj1 (transaction_Ok _ _ _ _)) in Hcall.
  destruct (addUserFeatures_loop_counts _ _ _ _ _ Hcall f) as [_ Hlen].
  rewrite Hnil in Hlen. simpl in Hlen.
  destruct (active_grants userId f db) eqn:Hbefore; simpl in Hlen; [|lia].
  rewrite decide_True in Hlen by done. lia.
Qed.

Lemma addUserFeatures_grants_all_witness :
  active_grants "acct" FeatureType.Copilot
    (fst (addUserFeatures "acct" [FeatureType.EarlyAccess; FeatureType.Copilot] (λ _, 1)
            catalog_db)) ≠ [].
Proof.
  apply (addUserFeatures_grants_all "acct"
           [FeatureType.EarlyAccess; FeatureType.Copilot] (λ _, 1) catalog_db).
  - vm_compute. reflexivity.
  - right. left.
Defined.

Lemma filter_appended (W : Db → UserFeature → Prop) `{∀ db r, Decision (W db r)}
    db db1 added :
  (∀ r, W db1 r ↔ W db r) →
  userFeatures db1 = userFeatures db ++ added →
  Forall (λ r, ¬ W db r) added →
  filter (W db1) (userFeatures db1) = filter (W db) (userFeatures db).
Proof.
  intros Hext Hl Hnone.
  rewrite (list_filter_iff _ (W db)) by done.
  rewrite Hl, filter_app.
  rewrite (proj2 (filter_empty_iff (W db) added)).
  - by rewrite app_nil_r.
  - by rewrite Forall_forall in Hnone.
Qed.

(** X9. [addUserFeatures] keeps the ledger free of double grants: when no
    feature has more than one active grant for an account before the call,
    none has after it, for the account of the call and for every other
    account. *)
Theorem addUserFeatures_at_most_one_grant
    (userId : string) (batch : list FeatureType.t) (now : nat → Z) (db : Db)
    (acct : string) :
  (∀ f, (length (active_grants acct f db) ≤ 1)%nat) →
  ∀ f, (length (active_grants acct f
                  (fst (addUserFeatures userId batch now db))) ≤ 1)%nat.
Proof.
  intros Hone f.
  destruct (addUserFeatures userId batch now db) as [db1 res] eqn:Hcall. cbn [fst].
  destruct (decide (acct = userId)) as [->|Hne].
  - unfold addUserFeatures in Hcall. destruct res as [[]|e].
    + apply (proj1 (transaction_Ok _ _ _ _)) in Hcall.
      destruct (addUserFeatures_loop_counts _ _ _ _ _ Hcall f) as [_ Hlen].
      cbv zeta in Hlen. rewrite Hlen. specialize (Hone f).
      case_decide as Hd; [|lia]. destruct Hd as [_ ->]. simpl. lia.
    + by apply (proj1 (transaction_Err _ _ _ _)) in Hcall as [-> _].
  - destruct (addUserFeatures_added _ _ _ _ _ _ Hcall) as (Hf & _ & added & Hl & Hall).
    unfold active_grants.
    rewrite (filter_appended (λ d, addUserFeatures_where acct (FeatureType.value f) d)
               db db1 added); [apply Hone| |done|].
    + intros r. by apply addUserFeatures_where_features.
    + eapply Forall_impl; [exact Hall|].
      intros r (Hu & _) (Hu' & _). congruence.
Qed.

Lemma addUserFeatures_at_most_one_grant_witness :
  (length (active_grants "u1" FeatureType.Copilot
             (fst (addUserFeatures "u1" [FeatureType.Copilot; FeatureType.Admin]
                     (λ _, 40%Z) fulfill_db))) ≤ 1)%nat.
Proof.
  apply (addUserFeatures_at_most_one_grant "u1" [FeatureType.Copilot; FeatureType.Admin]
           (λ _, 40) fulfill_db "u1").
  intros f. destruct f; vm_compute; lia.
Defined.

(** X10. [addUserFeatures] never touches a quota: the active quota records
    of every account, and every answer of [hasQuota], are the same after
    the call as before it. *)
Theorem addUserFeatures_keeps_quotas
    (userId : string) (batch : list FeatureType.t) (now : nat → Z) (db : Db)
    (acct quota : string) :
  active_quotas acct (fst (addUserFeatures userId batch now db)) = active_quotas acct db
  ∧ hasQuota acct quota (fst (addUserFeatures userId batch now db))
    = hasQuota acct quota db.
Proof.
  destruct (addUserFeatures userId batch now db) as [db1 res] eqn:Hcall. cbn [fst].
  destruct (addUserFeatures_added _ _ _ _ _ _ Hcall) as (Hf & _ & added & Hl & Hall).
  assert (Forall (λ r, ¬ feature_is db (λ f, f_type f = FeatureKind.Quota) r) added)
    as Hkind.
  { eapply Forall_impl; [exact Hall|].
    intros r (_ & _ & _ & _ & _ & f & d & _ & Hlook & [_ Hk] & _).
    unfold feature_is. rewrite Hlook. congruence. }
  split.
  - unfold active_quotas.
    apply (filter_appended (active_quota_where acct) db db1 added); [|done|].
    + intros r. by apply active_quota_where_features.
    + eapply Forall_impl; [exact Hkind|]. by intros r Hr [[_ ?] _].
  - unfold hasQuota, userFeature_count.
    rewrite (filter_appended (hasQuota_where acct quota) db db1 added); [done| |done|].
    + intros r. unfold hasQuota_where. by rewrite (feature_is_features db db1 _ r Hf).
    + eapply Forall_impl; [exact Hkind|]. intros r Hr (_ & Hq & _). apply Hr.
      unfold feature_is in *. destruct (features db !! uf_featureId r); [|done].
      by destruct Hq.
Qed.

(** ** The ledger under all the writers *)

Lemma findUserByEmail_read assertValidEmail email db :
  fst (findUserByEmail assertValidEmail email db) = db.
Proof.
  unfold findUserByEmail. by destruct (assertValidEmail email).
Qed.

Lemma addUserFeatures_loop_id_lt userId now batch :
  ∀ db,
    StronglySorted id_lt (userFeatures db) →
    StronglySorted id_lt (userFeatures (fst (addUserFeatures_loop userId now batch db))).
Proof.
  revert now. induction batch as [|g rest IH]; intros now db Hids; [done|].
  destruct (addUserFeatures_loop_cases userId now g rest db)
    as [[_ ->] | [[_ ->] | (_ & featureId & f & _ & _ & ->)]]; [by apply IH|done|].
  by apply IH, userFeature_create_id_lt.
Qed.

Lemma addUserFeatures_id_lt userId batch now db :
  StronglySorted id_lt (userFeatures db) →
  StronglySorted id_lt (userFeatures (fst (addUserFeatures userId batch now db))).
Proof.
  intros Hids. unfold addUserFeatures, transaction.
  pose proof (addUserFeatures_loop_id_lt userId now batch db Hids) as Hloop.
  by destruct (addUserFeatures_loop userId now batch db) as [d [a|e]].
Qed.

Section writers.
Context (assertValidEmail : string → bool)
  (assertValidPassword : string → Z → Z → bool)
  (password_max password_min : Z) (encryptPassword : string → string)
  (registered_default : bool).

Lemma createUser_without_verification_ledger data batch uuid now db :
  let db' := fst (createUser_without_verification assertValidEmail encryptPassword
                    registered_default data batch uuid now db) in
  features db' = features db
  ∧ (StronglySorted id_lt (userFeatures db) → StronglySorted id_lt (userFeatures db'))
  ∧ ∃ added,
      userFeatures db' = userFeatures db ++ added
      ∧ Forall (granted_record uuid (λ k, now (S k)) batch db) added.
Proof.
  cbv zeta.
  remember (fst (createUser_without_verification assertValidEmail encryptPassword
                   registered_default data batch uuid now db)) as db' eqn:Hdb'.
  unfold createUser_without_verification in Hdb'. unfold tx_bind at 1 in Hdb'.
  pose proof (findUserByEmail_read assertValidEmail (c_email data) db) as Hread.
  destruct (findUserByEmail assertValidEmail (c_email data) db) as [d [[u|]|e]];
    simpl in Hread; subst d; cbn [fst tx_throw] in Hdb'.
  1,3: subst db'; split_and!; [done..|]; exists []; by rewrite app_nil_r.
  unfold tx_bind, user_create in Hdb'. cbn [u_id select_default] in Hdb'.
  match type of Hdb' with
  | context [addUserFeatures uuid batch ?clock ?d] =>
      pose proof (addUserFeatures_id_lt uuid batch clock d) as Hids;
      destruct (addUserFeatures uuid batch clock d) as [db1 res] eqn:Hcall
  end.
  destruct (addUserFeatures_added _ _ _ _ _ _ Hcall) as (Hf & _ & added & Hl & Hall).
  assert (db' = db1) as -> by (destruct res; by subst db').
  cbn [fst] in Hids. split_and!; eauto.
Qed.

Lemma createUser_ledger data batch uuid now db :
  let db' := fst (createUser assertValidEmail assertValidPassword password_max
                    password_min encryptPassword registered_default
                    data batch uuid now db) in
  features db' = features db
  ∧ (StronglySorted id_lt (userFeatures db) → StronglySorted id_lt (userFeatures db'))
  ∧ ∃ added,
      userFeatures db' = userFeatures db ++ added
      ∧ Forall (granted_record uuid (λ k, now (S k)) batch db) added.
Proof.
  cbv zeta.
  assert (features db = features db
          ∧ (StronglySorted id_lt (userFeatures db) → StronglySorted id_lt (userFeatures db))
          ∧ ∃ added, userFeatures db = userFeatures db ++ added
                     ∧ Forall (granted_record uuid (λ k, now (S k)) batch db) added)
    as Hsame.
  { split_and!; [done..|]. exists []. by rewrite app_nil_r. }
  unfold createUser.
  destruct (assertValidEmail (c_email data)); [|done].
  destruct (truthy_string (c_password data)) as [p|].
  - destruct (assertValidPassword p password_max password_min); [|done].
    apply createUser_without_verification_ledger.
  - apply createUser_without_verification_ledger.
Qed.

(** The ledger after [fulfillUser], in every branch: the records it had,
    those of one account deactivated when the update of the account ran,
    followed by the grants of the features of the group. *)
Lemma fulfillUser_ledger email group data uuid now db :
  let db' := fst (fulfillUser assertValidEmail assertValidPassword password_max
                    password_min encryptPassword registered_default
                    email group data uuid now db) in
  features db' = features db
  ∧ (StronglySorted id_lt (userFeatures db) → StronglySorted id_lt (userFeatures db'))
  ∧ ∃ who userId clock added,
      userFeatures db' = (fade who <$> userFeatures db) ++ added
      ∧ Forall (granted_record userId clock (group_features group) db) added.
Proof.
  cbv zeta.
  assert (features db = features db
          ∧ (StronglySorted id_lt (userFeatures db) → StronglySorted id_lt (userFeatures db))
          ∧ ∃ who userId clock added,
              userFeatures db = (fade who <$> userFeatures db) ++ added
              ∧ Forall (granted_record userId clock (group_features group) db) added)
    as Hsame.
  { split_and!; [done..|]. exists None, uuid, now, []. by rewrite app_nil_r, list_fmap_id. }
  remember (fst (fulfillUser assertValidEmail assertValidPassword password_max
                   password_min encryptPassword registered_default
                   email group data uuid now db)) as db' eqn:Hdb'.
  unfold fulfillUser in Hdb'. unfold tx_bind at 1 in Hdb'.
  pose proof (findUserByEmail_read assertValidEmail email db) as Hread.
  destruct (findUserByEmail assertValidEmail email db) as [d [[user|]|e]];
    simpl in Hread; subst d; [| |by subst db'].
  - case_decide; [by subst db'|]. unfold tx_bind at 1 in Hdb'.
    destruct (user_update (u_id user) (update_payload user data) db)
      as [db_u [updated|e]] eqn:Hu.
    2:{ assert (db_u = db) as ->; [|by subst db'].
        unfold user_update in Hu.
        destruct (filter _ (users db)); [by simplify_eq|].
        case_decide; by simplify_eq. }
    destruct (user_update_store _ _ _ _ _ Hu) as (Hf_u & Hl_u & Hid).
    unfold tx_bind at 1 in Hdb'. unfold tx_write at 1 in Hdb'.
    set (db2 := userFeature_deactivateMany (activated_where (u_id updated)) db_u) in *.
    unfold tx_bind at 1 in Hdb'.
    pose proof (addUserFeatures_id_lt (u_id updated) (group_features group) now db2)
      as Hids.
    destruct (addUserFeatures (u_id updated) (group_features group) now db2)
      as [db3 res] eqn:Hadd.
    destruct (addUserFeatures_added _ _ _ _ _ _ Hadd) as (Hf3 & _ & added & Hl3 & Hall).
    assert (db' = db3) as -> by (destruct res; by subst db').
    cbn [fst] in Hids. split_and!.
    + by rewrite Hf3.
    + intros Hsorted. apply Hids. unfold db2.
      apply userFeature_deactivateMany_id_lt. by rewrite Hl_u.
    + exists (Some (u_id updated)), (u_id updated), now, added. split.
      * rewrite Hl3. unfold db2, userFeature_deactivateMany. simpl. by rewrite Hl_u.
      * eapply Forall_impl; [exact Hall|].
        intros r (? & ? & ? & ? & ? & f & x & ? & ? & ? & ?).
        split_and!; [done..|]. exists f, x. split_and!; try done.
        -- by rewrite <- Hf_u.
        -- intros id' d' Hlook'. rewrite <- Hf_u in Hlook'. eauto.
  - subst db'.
    destruct (createUser_ledger
                {| c_email := default email (d_email data);
                   c_name := Some (default (before_at email) (d_name data));
                   c_password := d_password data;
                   c_emailVerifiedAt := d_emailVerifiedAt data;
                   c_avatarUrl := d_avatarUrl data;
                   c_registered := d_registered data |}
                (group_features group) uuid now db) as (Hf & Hids & added & Hl & Hall).
    split_and!; [done..|]. exists None, uuid, (λ k, now (S k)), added.
    by rewrite list_fmap_id.
Qed.
End writers.

Lemma kept_fmap_app (g : UserFeature → UserFeature) old added :
  (∀ r, g r = r ∨ (uf_activated r = true ∧ g r = deactivate r)) →
  kept old ((g <$> old) ++ added).
Proof.
  intros Hg i r Hi.
  rewrite lookup_app_l by (rewrite length_fmap; by eapply lookup_lt_Some).
  rewrite list_lookup_fmap, Hi. simpl.
  destruct (Hg r) as [-> | [Hact ->]]; auto.
Qed.

Lemma switch_deactivate_fades userId db r :
  switch_deactivate userId db r = r
  ∨ (uf_activated r = true ∧ switch_deactivate userId db r = deactivate r).
Proof.
  unfold switch_deactivate. case_decide; [|by left].
  destruct (uf_activated r) eqn:Hact; [by right|]. left. by apply deactivate_inactive.
Qed.

Lemma fade_fades who r :
  fade who r = r ∨ (uf_activated r = true ∧ fade who r = deactivate r).
Proof.
  destruct who as [userId|]; [|by left]. simpl.
  case_decide as Hd; [|by left]. right. by destruct Hd.
Qed.

Section invariants.
Context (assertValidEmail : string → bool)
  (assertValidPassword : string → Z → Z → bool)
  (password_max password_min : Z) (encryptPassword : string → string)
  (registered_default : bool).

(** X11. No writer of the ledger deletes, moves, rewrites or reactivates a
    record: after [switchUserQuota], [addUserFeatures] and [fulfillUser],
    whether they succeed or fail, every record of the ledger is in its
    place, as it was or with [activated] turned from true to false. *)
Theorem ledger_records_only_fade
    (userId quota : string) (reason : option string) (expiredAt : option Z)
    (batch : list FeatureType.t) (email : string) (group : UserGroup.t)
    (data : UserData) (uuid : string) (now : Z) (clock : nat → Z)
    (db : Db) :
  kept (userFeatures db)
    (userFeatures (fst (switchUserQuota userId quota reason expiredAt now db)))
  ∧ kept (userFeatures db) (userFeatures (fst (addUserFeatures userId batch clock db)))
  ∧ kept (userFeatures db)
      (userFeatures (fst (fulfillUser assertValidEmail assertValidPassword
                            password_max password_min encryptPassword
                            registered_default email group data uuid clock db))).
Proof.
  split_and!.
  - destruct (switchUserQuota_cases userId quota reason expiredAt now db)
      as [[_ ->] | [(_ & _ & ->) | (_ & featureId & f & _ & _ & _ & _ & ->)]];
      cbn [fst]; [by left..|].
    rewrite userFeatures_switched. apply kept_fmap_app, switch_deactivate_fades.
  - destruct (addUserFeatures userId batch clock db) as [db1 res] eqn:Hcall. cbn [fst].
    destruct (addUserFeatures_added _ _ _ _ _ _ Hcall) as (_ & _ & added & -> & _).
    rewrite <- (list_fmap_id (userFeatures db)) at 2.
    apply kept_fmap_app. by left.
  - destruct (fulfillUser_ledger assertValidEmail assertValidPassword password_max
                password_min encryptPassword registered_default
                email group data uuid clock db)
      as (_ & _ & who & uid & ? & added & -> & _).
    apply kept_fmap_app, fade_fades.
Qed.

(** X12. Every writer of the ledger keeps its row ids growing with the
    order of insertion: when they do before [switchUserQuota],
    [addUserFeatures] or [fulfillUser], they do after it. *)
Theorem ledger_ids_grow
    (userId quota : string) (reason : option string) (expiredAt : option Z)
    (batch : list FeatureType.t) (email : string) (group : UserGroup.t)
    (data : UserData) (uuid : string) (now : Z) (clock : nat → Z)
    (db : Db) :
  StronglySorted id_lt (userFeatures db) →
  StronglySorted id_lt
    (userFeatures (fst (switchUserQuota userId quota reason expiredAt now db)))
  ∧ StronglySorted id_lt (userFeatures (fst (addUserFeatures userId batch clock db)))
  ∧ StronglySorted id_lt
      (userFeatures (fst (fulfillUser assertValidEmail assertValidPassword
                            password_max password_min encryptPassword
                            registered_default email group data uuid clock db))).
Proof.
  intros Hids. split_and!.
  - destruct (switchUserQuota_cases userId quota reason expiredAt now db)
      as [[_ ->] | [(_ & _ & ->) | (_ & featureId & f & _ & _ & _ & _ & ->)]];
      cbn [fst]; [done..|].
    by apply switched_id_lt.
  - by apply addUserFeatures_id_lt.
  - by apply fulfillUser_ledger.
Qed.

(** X13. [fulfillUser] never gives an account a quota: in every branch,
    the active quota records of an account afterwards are those it had or
    none, and [hasQuota] is true afterwards only where it was true
    before. *)
Theorem fulfillUser_never_grants_quota
    (email : string) (group : UserGroup.t) (data : UserData) (uuid : string)
    (now : nat → Z) (db : Db) (acct : string) :
  let db' := fst (fulfillUser assertValidEmail assertValidPassword password_max
                    password_min encryptPassword registered_default
                    email group data uuid now db) in
  (active_quotas acct db' = active_quotas acct db ∨ active_quotas acct db' = [])
  ∧ ∀ q, hasQuota acct q db' = true → hasQuota acct q db = true.
Proof.
  cbv zeta.
  destruct (fulfillUser_ledger assertValidEmail assertValidPassword password_max
              password_min encryptPassword registered_default
              email group data uuid now db)
    as (Hf & _ & who & uid & clock & added & Hl & Hall).
  set (db' := fst (fulfillUser _ _ _ _ _ _ _ _ _ _ _ _)) in *.
  assert (Forall (λ r, ¬ feature_is db (λ f, f_type f = FeatureKind.Quota) r) added)
    as Hkind.
  { eapply Forall_impl; [exact Hall|].
    intros r (_ & _ & _ & _ & _ & f & d & _ & Hlook & [_ Hk] & _).
    unfold feature_is. rewrite Hlook. congruence. }
  split.
  - unfold active_quotas.
    rewrite (list_filter_iff _ (active_quota_where acct db))
      by (intros r; by apply active_quota_where_features).
    rewrite Hl, filter_app.
    rewrite (proj2 (filter_empty_iff (active_quota_where acct db) added)), app_nil_r.
    2:{ rewrite Forall_forall in Hkind. intros r Hr [[_ ?] _]. by apply (Hkind r). }
    destruct who as [w|]; [|left; by rewrite list_fmap_id].
    destruct (decide (acct = w)) as [->|Hne].
    + right. apply filter_fmap_none. intros r _ [[Hu Hq] Hact]. simpl in *.
      case_decide as Hd; [done|]. by apply Hd.
    + left. apply filter_fmap_unchanged. intros r _. simpl.
      case_decide as Hd; [right|by left]. destruct Hd as [Hu _].
      split; intros [[Hu' _] _]; simpl in Hu'; congruence.
  - intros q (r' & Hin & Hw)%hasQuota_true. apply hasQuota_true.
    rewrite Hl in Hin. apply elem_of_app in Hin as [Hin|Hin].
    + apply list_elem_of_fmap in Hin as (r & -> & Hin).
      exists r. split; [done|].
      assert (fade who r = r) as Heq.
      { destruct (fade_fades who r) as [?|[_ Hd]]; [done|].
        destruct Hw as (_ & _ & Hact). rewrite Hd in Hact. done. }
      rewrite Heq in Hw. unfold hasQuota_where in *.
      by rewrite <- (feature_is_features db db' _ r Hf).
    + exfalso. rewrite Forall_forall in Hkind. apply (Hkind r' Hin).
      destruct Hw as (_ & Hq & _).
      rewrite (feature_is_features db db' _ r' Hf) in Hq.
      unfold feature_is in *. destruct (features db !! uf_featureId r'); [|done].
      by destruct Hq.
Qed.
End invariants.

Lemma ledger_ids_grow_witness :
  StronglySorted id_lt
    (userFeatures (fst (switchUserQuota "u1" "team_workspace" None None 20 example_db))).
Proof.
  refine (proj1 (ledger_ids_grow (λ _, true) (λ _ _ _, true) 32 8 (λ p, p) true
                   "u1" "team_workspace" None None [] "" UserGroup.Other no_data ""
                   20 (λ _, 20) example_db _)).
  apply (bool_decide_unpack _). vm_compute. exact I.
Defined.

Lemma fulfillUser_never_grants_quota_witness :
  hasQuota "u1" "pro_plan" fulfill_db = true.
Proof.
  refine (proj2 (fulfillUser_never_grants_quota (λ _, true) (λ _ _ _, true) 32 8
                   (λ p, p) true "zed@example.com" UserGroup.User no_data "u9" (λ _, 30)
                   fulfill_db "u1") "pro_plan" _).
  vm_compute. reflexivity.
Defined.

(** ** [fulfillUser] for an account that exists *)

Section update_branch.
Context (assertValidEmail : string → bool)
  (assertValidPassword : string → Z → Z → bool)
  (password_max password_min : Z) (encryptPassword : string → string)
  (registered_default : bool).

Abbreviation fulfill := (fulfillUser assertValidEmail assertValidPassword
                           password_max password_min encryptPassword
                           registered_default).

(** The branch of [fulfillUser] that updates the account, step by step. *)
Lemma fulfillUser_update email group data uuid now db user db_u updated :
  findUserByEmail assertValidEmail email db = (db, Ok (Some user)) →
  Object_keys_length (update_payload user data) ≠ 0%nat →
  user_update (u_id user) (update_payload user data) db = (db_u, Ok updated) →
  let db2 := userFeature_deactivateMany (activated_where (u_id user)) db_u in
  fulfill email group data uuid now db
  = (fst (addUserFeatures (u_id user) (group_features group) now db2),
     match snd (addUserFeatures (u_id user) (group_features group) now db2) with
     | Ok _ => Ok user
     | Err e => Err e
     end)
  ∧ features db2 = features db
  ∧ users db2 = users db_u
  ∧ userFeatures db2 = fade (Some (u_id user)) <$> userFeatures db.
Proof.
  intros Hfind Hkeys Hu. cbv zeta.
  destruct (user_update_store _ _ _ _ _ Hu) as (Hf_u & Hl_u & Hid).
  split_and!.
  - unfold fulfillUser, tx_bind. rewrite Hfind.
    rewrite decide_False by done. rewrite Hu. unfold tx_write. rewrite Hid.
    by destruct (addUserFeatures _ _ _ _) as [d [[]|e]].
  - done.
  - done.
  - unfold userFeature_deactivateMany. simpl. by rewrite Hl_u.
Qed.

Lemma fade_no_active userId old f db2 db :
  features db2 = features db →
  userFeatures db2 = fade (Some userId) <$> old →
  active_grants userId f db2 = [].
Proof.
  intros Hf Hl. unfold active_grants. rewrite Hl.
  apply filter_fmap_none. intros r _ (Hu & _ & Hact). simpl in *.
  case_decide as Hd; [done|]. by apply Hd.
Qed.

(** X14. When [fulfillUser] updates an account that exists (the payload is
    not empty after its deletions and the update goes through), the account
    has no quota afterwards: [hasQuota] is false for every quota name,
    whether the grant of the features of the group then succeeds or
    fails. *)
Theorem fulfillUser_strips_quota
    (email : string) (group : UserGroup.t) (data : UserData) (uuid : string)
    (now : nat → Z) (db : Db) (user : UserRow) :
  findUserByEmail assertValidEmail email db = (db, Ok (Some user)) →
  Object_keys_length (update_payload user data) ≠ 0%nat →
  is_Ok (snd (user_update (u_id user) (update_payload user data) db)) →
  ∀ q, hasQuota (u_id user) q (fst (fulfill email group data uuid now db)) = false.
Proof.
  intros Hfind Hkeys Hupdate q.
  destruct (user_update (u_id user) (update_payload user data) db)
    as [db_u [updated|e]] eqn:Hu; [|done].
  destruct (fulfillUser_update _ group _ uuid now _ _ _ _ Hfind Hkeys Hu)
    as (-> & Hf2 & _ & Hl2).
  cbn [fst].
  set (db2 := userFeature_deactivateMany (activated_where (u_id user)) db_u) in *.
  destruct (addUserFeatures (u_id user) (group_features group) now db2)
    as [db3 res] eqn:Hadd. cbn [fst].
  destruct (addUserFeatures_added _ _ _ _ _ _ Hadd) as (Hf3 & _ & added & Hl3 & Hall).
  apply hasQuota_false. intros r Hin (Hu' & Hq & Hact).
  rewrite Hl3, Hl2 in Hin. apply elem_of_app in Hin as [Hin|Hin].
  - apply list_elem_of_fmap in Hin as (r0 & -> & _). simpl in *.
    case_decide as Hd; [done|]. by apply Hd.
  - rewrite Forall_forall in Hall.
    destruct (Hall _ Hin) as (_ & _ & _ & _ & _ & f & d & _ & Hlook & [_ Hk] & _).
    rewrite (feature_is_features db2 db3 _ r Hf3) in Hq.
    unfold feature_is in Hq. rewrite Hlook in Hq. destruct Hq. congruence.
Qed.

(** X15. [fulfillUser] is not all or nothing.  When it updates an account
    that exists and, in a registry whose ids start above 0, one of the
    features of the group has no definition of Feature kind, the call fails
    with "Feature ... not found", and yet the update of the account and the
    deactivation stay: every record the account had is inactive and no
    record has been added. *)
Theorem fulfillUser_fails_after_deactivation
    (email : string) (group : UserGroup.t) (data : UserData) (uuid : string)
    (now : nat → Z) (db db_u : Db) (user updated : UserRow) (f : FeatureType.t) :
  findUserByEmail assertValidEmail email db = (db, Ok (Some user)) →
  Object_keys_length (update_payload user data) ≠ 0%nat →
  user_update (u_id user) (update_payload user data) db = (db_u, Ok updated) →
  features db !! 0 = None →
  f ∈ group_features group →
  (∀ id d, features db !! id = Some d → ¬ feature_definition (FeatureType.value f) d) →
  ∃ g,
    g ∈ group_features group
    ∧ snd (fulfill email group data uuid now db)
      = Err (FeatureNotFound (FeatureType.value g))
    ∧ users (fst (fulfill email group data uuid now db)) = users db_u
    ∧ userFeatures (fst (fulfill email group data uuid now db))
      = fade (Some (u_id user)) <$> userFeatures db.
Proof.
  intros Hfind Hkeys Hu Hzero Hin Hnone.
  destruct (fulfillUser_update _ group _ uuid now _ _ _ _ Hfind Hkeys Hu)
    as (-> & Hf2 & Hu2 & Hl2).
  cbn [fst snd].
  set (db2 := userFeature_deactivateMany (activated_where (u_id user)) db_u) in *.
  assert (¬ grantable (u_id user) db2 f) as Hnot.
  { intros [Hact|(id & d & Hlook & Hdef)].
    - apply Hact. by apply (fade_no_active _ (userFeatures db) _ _ db).
    - rewrite Hf2 in Hlook. by apply (Hnone id d). }
  assert (features db2 !! 0 = None) as Hzero2 by by rewrite Hf2.
  destruct (addUserFeatures_loop_outcome (u_id user) now (group_features group) db2
              Hzero2) as [Hok Herr].
  unfold addUserFeatures. rewrite snd_transaction.
  destruct (addUserFeatures_loop (u_id user) now (group_features group) db2)
    as [db3 [[]|e]] eqn:Hloop; cbn [snd] in *.
  - exfalso. apply Hnot. pose proof (proj1 Hok eq_refl) as Hall.
    rewrite Forall_forall in Hall. by apply Hall.
  - destruct (Herr e eq_refl) as (g & Hg & _ & ->).
    exists g. unfold transaction. rewrite Hloop. by cbn [fst].
Qed.

(** X16. For a group [fulfillUser] does not know, the update of an account
    that exists succeeds and leaves the account with no active record at
    all: its records are deactivated and nothing is granted. *)
Theorem fulfillUser_unknown_group
    (email : string) (data : UserData) (uuid : string) (now : nat → Z) (db db_u : Db)
    (user updated : UserRow) :
  findUserByEmail assertValidEmail email db = (db, Ok (Some user)) →
  Object_keys_length (update_payload user data) ≠ 0%nat →
  user_update (u_id user) (update_payload user data) db = (db_u, Ok updated) →
  snd (fulfill email UserGroup.Other data uuid now db) = Ok user
  ∧ userFeatures (fst (fulfill email UserGroup.Other data uuid now db))
    = fade (Some (u_id user)) <$> userFeatures db
  ∧ Forall (λ r, uf_userId r = u_id user → uf_activated r = false)
      (userFeatures (fst (fulfill email UserGroup.Other data uuid now db))).
Proof.
  intros Hfind Hkeys Hu.
  destruct (fulfillUser_update _ UserGroup.Other _ uuid now _ _ _ _ Hfind Hkeys Hu)
    as (-> & _ & _ & Hl2).
  cbn [fst snd group_features addUserFeatures]. unfold addUserFeatures. simpl.
  split_and!; [done..|].
  apply Forall_forall. intros r' (r & -> & _)%list_elem_of_fmap. simpl.
  case_decide as Hd; [done|]. intros Hu'.
  destruct (uf_activated r) eqn:Hact; [|done]. by destruct Hd.
Qed.

End update_branch.

Lemma fulfillUser_strips_quota_witness :
  hasQuota "u1" "pro_plan"
    (fst (fulfillUser (λ _, true) (λ _ _ _, true) 32 8 (λ p, p) true
            "Ann@Example.com" UserGroup.User rename_to_anna "u9" (λ _, 30) fulfill_db))
  = false.
Proof.
  apply (fulfillUser_strips_quota (λ _, true) (λ _ _ _, true) 32 8 (λ p, p) true
           "Ann@Example.com" UserGroup.User rename_to_anna "u9" (λ _, 30) fulfill_db ann).
  - vm_compute. reflexivity.
  - vm_compute. discriminate.
  - vm_compute. exact I.
Defined.

Lemma fulfillUser_fails_after_deactivation_witness :
  ∃ g,
    g ∈ group_features UserGroup.User
    ∧ snd (fulfillUser (λ _, true) (λ _ _ _, true) 32 8 (λ p, p) true
             "ann@example.com" UserGroup.User rename_to_anna "u9" (λ _, 30)
             example_users_db)
      = Err (FeatureNotFound (FeatureType.value g))
    ∧ users (fst (fulfillUser (λ _, true) (λ _ _ _, true) 32 8 (λ p, p) true
                    "ann@example.com" UserGroup.User rename_to_anna "u9" (λ _, 30)
                    example_users_db))
      = users (fst (user_update "u1" rename_to_anna example_users_db))
    ∧ userFeatures (fst (fulfillUser (λ _, true) (λ _ _ _, true) 32 8 (λ p, p) true
                           "ann@example.com" UserGroup.User rename_to_anna "u9" (λ _, 30)
                           example_users_db))
      = fade (Some "u1") <$> userFeatures example_users_db.
Proof.
  apply (fulfillUser_fails_after_deactivation (λ _, true) (λ _ _ _, true) 32 8
           (λ p, p) true "ann@example.com" UserGroup.User rename_to_anna "u9" (λ _, 30)
           example_users_db (fst (user_update "u1" rename_to_anna example_users_db))
           ann (mkUser "u1" "Anna" "ann@example.com" None None None true 1)
           FeatureType.PersonalWorkspace).
  - vm_compute. reflexivity.
  - vm_compute. discriminate.
  - vm_compute. reflexivity.
  - reflexivity.
  - left.
  - change (map_Forall (λ _ d, ¬ feature_definition
                                   (FeatureType.value FeatureType.PersonalWorkspace) d)
              (features example_users_db)).
    apply (bool_decide_unpack _). vm_compute. exact I.
Defined.

Lemma fulfillUser_unknown_group_witness :
  Forall (λ r, uf_userId r = "u1" → uf_activated r = false)
    (userFeatures
       (fst (fulfillUser (λ _, true) (λ _ _ _, true) 32 8 (λ p, p) true
               "ann@example.com" UserGroup.Other rename_to_anna "u9" (λ _, 30)
               fulfill_db))).
Proof.
  apply (fulfillUser_unknown_group (λ _, true) (λ _ _ _, true) 32 8 (λ p, p) true
           "ann@example.com" rename_to_anna "u9" (λ _, 30) fulfill_db
           (fst (user_update "u1" rename_to_anna fulfill_db))
           ann (mkUser "u1" "Anna" "ann@example.com" None None None true 1)).
  - vm_compute. reflexivity.
  - vm_compute. discriminate.
  - vm_compute. reflexivity.
Defined.

(** ** Creating accounts *)

Lemma addUserFeatures_loop_error userId now batch :
  ∀ db db1 e,
    addUserFeatures_loop userId now batch db = (db1, Err e) →
    ∃ f, f ∈ batch ∧ e = FeatureNotFound (FeatureType.value f).
Proof.
  revert now. induction batch as [|g rest IH]; intros now db db1 e Hloop; [done|].
  destruct (addUserFeatures_loop_cases userId now g rest db)
    as [[_ Heq] | [[_ Heq] | (_ & featureId & f & _ & _ & Heq)]];
    rewrite Heq in Hloop.
  - destruct (IH _ _ _ _ Hloop) as (f & Hin & ->). exists f. split; [by right|done].
  - simplify_eq. exists g. split; [by left|done].
  - destruct (IH _ _ _ _ Hloop) as (f' & Hin & ->). exists f'. split; [by right|done].
Qed.

Section creating.
Context (assertValidEmail : string → bool)
  (assertValidPassword : string → Z → Z → bool)
  (password_max password_min : Z) (encryptPassword : string → string)
  (registered_default : bool).

Abbreviation create_unverified :=
  (createUser_without_verification assertValidEmail encryptPassword registered_default).
Abbreviation create :=
  (createUser assertValidEmail assertValidPassword password_max password_min
     encryptPassword registered_default).
Abbreviation find_by_email := (findUserByEmail assertValidEmail).

Lemma findUserByEmail_valid email db :
  assertValidEmail email = true →
  find_by_email email db = (db, Ok (select_default <$> head (rows_by_email email db))).
Proof. intros Hvalid. unfold findUserByEmail. by rewrite Hvalid. Qed.

Lemma findUserByEmail_invalid email db :
  assertValidEmail email = false → find_by_email email db = (db, Err InvalidEmail).
Proof. intros Hvalid. unfold findUserByEmail. by rewrite Hvalid. Qed.

(** The ways through [createUser_without_verification]. *)
Lemma createUser_without_verification_cases data batch uuid now db :
  let row := created_row encryptPassword registered_default data uuid (now 0%nat) in
  let db1 := set_users (users db ++ [row]) db in
  (assertValidEmail (c_email data) = false
   ∧ create_unverified data batch uuid now db = (db, Err InvalidEmail))
  ∨ (assertValidEmail (c_email data) = true
     ∧ rows_by_email (c_email data) db ≠ []
     ∧ create_unverified data batch uuid now db = (db, Err EmailAlreadyUsed))
  ∨ (assertValidEmail (c_email data) = true
     ∧ rows_by_email (c_email data) db = []
     ∧ create_unverified data batch uuid now db
       = (fst (addUserFeatures uuid batch (λ k, now (S k)) db1),
          match snd (addUserFeatures uuid batch (λ k, now (S k)) db1) with
          | Ok _ => Ok (select_default row)
          | Err e => Err e
          end)).
Proof.
  cbv zeta. unfold createUser_without_verification, tx_bind.
  destruct (assertValidEmail (c_email data)) eqn:Hvalid.
  - right. rewrite findUserByEmail_valid by done.
    destruct (rows_by_email (c_email data) db) as [|u t] eqn:Hrows.
    + right. split_and!; [done..|]. simpl.
      unfold user_create, created_row. simpl.
      by destruct (addUserFeatures _ _ _ _) as [d [[]|e]].
    + left. by split_and!.
  - left. split; [done|]. by rewrite findUserByEmail_invalid.
Qed.

(** X18. [createUser] is not all or nothing either.  When it fails on the
    email, on the password or because the email is in use, the store is as
    it was; when it fails because a feature of the batch has no definition,
    the account has been inserted all the same, without any grant. *)
Theorem createUser_failure_modes
    (data : CreateUserInput) (batch : list FeatureType.t) (uuid : string)
    (now : nat → Z) (db : Db) (e : Error) :
  snd (create data batch uuid now db) = Err e →
  (fst (create data batch uuid now db) = db
   ∧ (e = InvalidEmail ∨ e = InvalidPassword ∨ e = EmailAlreadyUsed))
  ∨ (∃ f, f ∈ batch ∧ e = FeatureNotFound (FeatureType.value f))
    ∧ users (fst (create data batch uuid now db))
      = users db
        ++ [created_row encryptPassword registered_default data uuid (now 0%nat)]
    ∧ userFeatures (fst (create data batch uuid now db)) = userFeatures db.
Proof.
  unfold createUser.
  destruct (assertValidEmail (c_email data)) eqn:Hvalid;
    [|intros ?; simplify_eq/=; left; auto].
  assert (snd (create_unverified data batch uuid now db) = Err e →
          (fst (create_unverified data batch uuid now db) = db
           ∧ (e = InvalidEmail ∨ e = InvalidPassword ∨ e = EmailAlreadyUsed))
          ∨ (∃ f, f ∈ batch ∧ e = FeatureNotFound (FeatureType.value f))
            ∧ users (fst (create_unverified data batch uuid now db))
              = users db
                ++ [created_row encryptPassword registered_default data uuid
                      (now 0%nat)]
            ∧ userFeatures (fst (create_unverified data batch uuid now db))
              = userFeatures db) as Hinner.
  { destruct (createUser_without_verification_cases data batch uuid now db)
      as [[_ ->] | [(_ & _ & ->) | (_ & _ & ->)]]; cbn [fst snd].
    1,2: intros ?; simplify_eq; left; auto.
    unfold addUserFeatures. rewrite snd_transaction. unfold transaction.
    destruct (addUserFeatures_loop uuid _ batch _) as [d [[]|e']] eqn:Hloop;
      cbn [fst snd]; [done|].
    intros ?; simplify_eq. right. split; [|done].
    by eapply addUserFeatures_loop_error. }
  destruct (truthy_string (c_password data)) as [p|]; [|done].
  destruct (assertValidPassword p password_max password_min); [done|].
  intros ?; simplify_eq/=. left. auto.
Qed.

Lemma createUser_Ok data batch uuid now db db' created :
  create data batch uuid now db = (db', Ok created) →
  assertValidEmail (c_email data) = true
  ∧ rows_by_email (c_email data) db = []
  ∧ created
    = select_default
        (created_row encryptPassword registered_default data uuid (now 0%nat))
  ∧ users db'
    = users db ++ [created_row encryptPassword registered_default data uuid (now 0%nat)]
  ∧ features db' = features db.
Proof.
  unfold createUser. intros Hcall.
  destruct (assertValidEmail (c_email data)) eqn:Hvalid; [|done].
  assert (create_unverified data batch uuid now db = (db', Ok created)) as Hinner.
  { destruct (truthy_string (c_password data)) as [p|]; [|done].
    by destruct (assertValidPassword p password_max password_min). }
  clear Hcall.
  destruct (createUser_without_verification_cases data batch uuid now db)
    as [[_ Heq] | [(_ & _ & Heq) | (_ & Hrows & Heq)]];
    rewrite Heq in Hinner; [done..|].
  match type of Hinner with
  | context [addUserFeatures uuid batch ?clock ?d] =>
      destruct (addUserFeatures uuid batch clock d) as [db1 res] eqn:Hadd
  end.
  destruct (addUserFeatures_added _ _ _ _ _ _ Hadd) as (Hf & Hu & _).
  destruct res as [[]|e']; simplify_eq/=. by split_and!.
Qed.

Lemma rows_by_email_created email email' row db db' :
  lower email' = lower email →
  rows_by_email email db = [] →
  u_email row = email →
  users db' = users db ++ [row] →
  rows_by_email email' db' = [row].
Proof.
  intros Hlower Hrows Hrow Hu. unfold rows_by_email in *.
  rewrite Hu, filter_app, Hlower, Hrows. simpl.
  rewrite filter_cons, decide_True; [done|]. by rewrite Hrow.
Qed.

(** X19. An account [createUser] has created is found by its email
    whatever the case of the letters: [findUserByEmail] returns the account,
    and a second creation with an email that differs in case alone fails
    with [EmailAlreadyUsed] and writes nothing. *)
Theorem createUser_then_find
    (data : CreateUserInput) (batch : list FeatureType.t) (uuid : string)
    (now : nat → Z) (db db' : Db) (created : UserRow) (email' : string) :
  create data batch uuid now db = (db', Ok created) →
  assertValidEmail email' = true →
  lower email' = lower (c_email data) →
  find_by_email email' db' = (db', Ok (Some created))
  ∧ ∀ data2 batch2 uuid2 now2,
      c_email data2 = email' →
      create_unverified data2 batch2 uuid2 now2 db' = (db', Err EmailAlreadyUsed).
Proof.
  intros Hcall Hvalid Hlower.
  destruct (createUser_Ok _ _ _ _ _ _ _ Hcall) as (_ & Hrows & -> & Hu & _).
  pose proof (rows_by_email_created (c_email data) email'
                (created_row encryptPassword registered_default data uuid (now 0%nat))
                db db' Hlower Hrows eq_refl Hu) as Hfound.
  split.
  - rewrite findUserByEmail_valid by done. by rewrite Hfound.
  - intros data2 batch2 uuid2 now2 Hemail.
    destruct (createUser_without_verification_cases data2 batch2 uuid2 now2 db')
      as [[Hinvalid _] | [(_ & _ & Heq) | (_ & Hnone & _)]]; [|done|].
    + rewrite Hemail in Hinvalid. congruence.
    + rewrite Hemail, Hfound in Hnone. done.
Qed.

(** X20. [createUser] keeps emails unique up to the case of their letters:
    when no two accounts share an email before the call, none do after it,
    whether it succeeds or fails. *)
Theorem createUser_keeps_emails_unique
    (data : CreateUserInput) (batch : list FeatureType.t) (uuid : string)
    (now : nat → Z) (db : Db) :
  emails_unique db → emails_unique (fst (create data batch uuid now db)).
Proof.
  intros Hunique. unfold createUser.
  destruct (assertValidEmail (c_email data)) eqn:Hvalid; [|done].
  assert (emails_unique (fst (create_unverified data batch uuid now db))) as Hinner.
  { destruct (createUser_without_verification_cases data batch uuid now db)
      as [[_ ->] | [(_ & _ & ->) | (_ & Hrows & ->)]]; cbn [fst]; [done..|].
    match goal with
    | |- context [addUserFeatures uuid batch ?clock ?d] =>
        destruct (addUserFeatures uuid batch clock d) as [db1 res] eqn:Hadd
    end.
    destruct (addUserFeatures_added _ _ _ _ _ _ Hadd) as (_ & Hu & _).
    cbn [fst]. unfold emails_unique in *. rewrite Hu. simpl.
    rewrite fmap_app. apply NoDup_app. split_and!; [done| |apply NoDup_singleton].
    intros x Hx Hx'. apply list_elem_of_singleton in Hx'. simpl in Hx'. subst x.
    apply list_elem_of_fmap in Hx as (u & Heq & Hin).
    assert (u ∈ rows_by_email (c_email data) db) as Hu'.
    { apply list_elem_of_filter. split; [by rewrite <- Heq|done]. }
    rewrite Hrows in Hu'. by apply elem_of_nil in Hu'. }
  destruct (truthy_string (c_password data)) as [p|]; [|done].
  by destruct (assertValidPassword p password_max password_min).
Qed.
End creating.

(** ** [fulfillUser] called again *)

Section repeated.
Context (assertValidEmail : string → bool)
  (assertValidPassword : string → Z → Z → bool)
  (password_max password_min : Z) (encryptPassword : string → string)
  (registered_default : bool).

Abbreviation fulfill_user := (fulfillUser assertValidEmail assertValidPassword
                                password_max password_min encryptPassword
                                registered_default).

(** X17. [fulfillUser] called again for the account it has created writes
    nothing.  When no account has the email, the payload has no other keys
    than [emailVerifiedAt] and [registered], the latter not false, and the
    call succeeds, a second call with the same email and payload finds the
    account, deletes both keys from the payload, and returns the account as
    the first call returned it, leaving the store as it is: nothing is
    deactivated or granted, not even when the second call names another
    group. *)
Theorem fulfillUser_repeated
    (email : string) (group group' : UserGroup.t) (data : UserData)
    (uuid uuid' : string) (now now' : nat → Z) (db db' : Db) (created : UserRow) :
  rows_by_email email db = [] →
  d_name data = None ∧ d_email data = None ∧ d_password data = None
  ∧ d_avatarUrl data = None →
  d_registered data ≠ Some false →
  fulfill_user email group data uuid now db = (db', Ok created) →
  fulfill_user email group' data uuid' now' db' = (db', Ok created).
Proof.
  intros Hrows (Hname & Hemail & Hpassword & Havatar) Hregistered Hcall.
  destruct data as [name email0 password verified avatar registered].
  simpl in Hname, Hemail, Hpassword, Havatar, Hregistered. subst.
  unfold fulfillUser in Hcall. unfold tx_bind at 1 in Hcall.
  destruct (assertValidEmail email) eqn:Hvalid.
  2:{ by rewrite findUserByEmail_invalid in Hcall. }
  rewrite findUserByEmail_valid, Hrows in Hcall by done. simpl in Hcall.
  destruct (createUser_Ok _ _ _ _ _ _ _ _ _ _ _ _ _ Hcall)
    as (_ & _ & -> & Husers & _).
  match type of Husers with
  | _ = _ ++ [?r] => set (row := r) in *
  end.
  assert (rows_by_email email db' = [row]) as Hfound.
  { apply (rows_by_email_created email email row db db' eq_refl Hrows); [|done].
    done. }
  unfold fulfillUser. unfold tx_bind at 1.
  rewrite findUserByEmail_valid, Hfound by done. simpl.
  rewrite decide_True; [done|].
  unfold update_payload, Object_keys_length, row, created_row. simpl.
  by destruct registered as [[]|], verified, registered_default.
Qed.
End repeated.

(** ** Sign-in *)

Lemma truthy_string_Some o s :
  truthy_string o = Some s ↔ o = Some s ∧ s ≠ "".
Proof.
  destruct o as [[|c t]|]; simpl; split; try done.
  - by intros [? ?]; simplify_eq.
  - intros ?; by simplify_eq.
  - by intros [? _].
  - by intros [? _].
Qed.

Lemma truthy_string_None o :
  truthy_string o = None ↔ o = None ∨ o = Some "".
Proof.
  destruct o as [[|c t]|]; simpl; split; auto; try done.
  by intros [?|?].
Qed.

Section signing_in.
Context (assertValidEmail : string → bool)
  (assertValidPassword : string → Z → Z → bool)
  (password_max password_min : Z) (encryptPassword : string → string)
  (registered_default : bool) (verifyPassword : string → string → bool).

Abbreviation sign_in := (signIn assertValidEmail verifyPassword).

Lemma signIn_valid email password db :
  assertValidEmail email = true →
  sign_in email password db
  = match head (rows_by_email email db) with
    | None => (db, WrongSignInCredentials)
    | Some user =>
        match truthy_string (u_password user) with
        | None => (db, WrongSignInMethod)
        | Some hash =>
            if verifyPassword password hash then (db, SignedIn user)
            else (db, WrongSignInCredentials)
        end
    end.
Proof.
  intros Hvalid.
  unfold signIn, findUserWithHashedPasswordByEmail, tx_bind, tx_read, tx_ret.
  rewrite Hvalid. fold (rows_by_email email db).
  by destruct (head (rows_by_email email db)).
Qed.

(** X21. [signIn] never writes to the store, and it lets in only with a
    checked password: when it returns an account, the email is valid, the
    account is a row of the store with that email up to the case of its
    letters, the row has a password hash that is not empty, and
    [verifyPassword] accepts the password against that hash. *)
Theorem signIn_sound (email password : string) (db : Db) :
  fst (sign_in email password db) = db
  ∧ ∀ user,
      snd (sign_in email password db) = SignedIn user →
      assertValidEmail email = true
      ∧ user ∈ users db
      ∧ lower (u_email user) = lower email
      ∧ ∃ hash, u_password user = Some hash ∧ hash ≠ ""
                ∧ verifyPassword password hash = true.
Proof.
  destruct (assertValidEmail email) eqn:Hvalid.
  - rewrite signIn_valid by done.
    destruct (head (rows_by_email email db)) as [u|] eqn:Hhead; [|by split].
    assert (u ∈ rows_by_email email db) as Hin.
    { destruct (rows_by_email email db); simplify_eq/=. left. }
    apply list_elem_of_filter in Hin as [Hlower Hin].
    destruct (truthy_string (u_password u)) as [hash|] eqn:Hhash; [|by split].
    apply truthy_string_Some in Hhash as [Hpw Hne].
    destruct (verifyPassword password hash) eqn:Hverify; [|by split].
    split; [done|]. intros user ?; simplify_eq/=.
    split_and!; [done..|]. by exists hash.
  - unfold signIn, findUserWithHashedPasswordByEmail. rewrite Hvalid. by split.
Qed.

(** X22. An account [createUser] has created with a password signs in with
    that email, whatever the case of its letters, exactly when
    [verifyPassword] accepts the password against the hash [createUser] has
    stored, provided the hash is not the empty string; the row [signIn]
    returns carries the hash, never the password. *)
Theorem signIn_after_createUser
    (data : CreateUserInput) (batch : list FeatureType.t) (uuid : string)
    (now : nat → Z) (db db' : Db) (created : UserRow) (p email' password : string) :
  createUser assertValidEmail assertValidPassword password_max password_min
    encryptPassword registered_default data batch uuid now db = (db', Ok created) →
  truthy_string (c_password data) = Some p →
  encryptPassword p ≠ "" →
  assertValidEmail email' = true →
  lower email' = lower (c_email data) →
  let row := created_row encryptPassword registered_default data uuid (now 0%nat) in
  u_password row = Some (encryptPassword p)
  ∧ sign_in email' password db'
    = (db', if verifyPassword password (encryptPassword p) then SignedIn row
            else WrongSignInCredentials).
Proof.
  intros Hcall Hp Hhash Hvalid Hlower row.
  destruct (createUser_Ok _ _ _ _ _ _ _ _ _ _ _ _ _ Hcall) as (_ & Hrows & _ & Hu & _).
  pose proof (rows_by_email_created (c_email data) email' row db db' Hlower Hrows
                eq_refl Hu) as Hfound.
  assert (u_password row = Some (encryptPassword p)) as Hpw.
  { unfold row, created_row. simpl. by rewrite Hp. }
  split; [done|].
  rewrite signIn_valid by done. rewrite Hfound.
  change (head [row]) with (Some row). cbv iota. rewrite Hpw.
  assert (truthy_string (Some (encryptPassword p)) = Some (encryptPassword p)) as ->
    by by apply truthy_string_Some.
  by destruct (verifyPassword password (encryptPassword p)).
Qed.

(** X23. An account [createUser] has created without a password, or with
    the empty string as its password, cannot sign in with a password:
    [signIn] fails with [WrongSignInMethod] whatever password is given. *)
Theorem signIn_without_password
    (data : CreateUserInput) (batch : list FeatureType.t) (uuid : string)
    (now : nat → Z) (db db' : Db) (created : UserRow) (email' password : string) :
  createUser assertValidEmail assertValidPassword password_max password_min
    encryptPassword registered_default data batch uuid now db = (db', Ok created) →
  truthy_string (c_password data) = None →
  assertValidEmail email' = true →
  lower email' = lower (c_email data) →
  sign_in email' password db' = (db', WrongSignInMethod).
Proof.
  intros Hcall Hp Hvalid Hlower.
  destruct (createUser_Ok _ _ _ _ _ _ _ _ _ _ _ _ _ Hcall) as (_ & Hrows & _ & Hu & _).
  pose proof (rows_by_email_created (c_email data) email'
                (created_row encryptPassword registered_default data uuid (now 0%nat))
                db db' Hlower Hrows eq_refl Hu) as Hfound.
  rewrite signIn_valid by done. rewrite Hfound.
  assert (truthy_string
            (u_password
               (created_row encryptPassword registered_default data uuid (now 0%nat)))
          = None) as Hnone.
  { unfold created_row. simpl. rewrite Hp. simpl. done. }
  cbn [head]. by rewrite Hnone.
Qed.
End signing_in.

(** ** Updating an account *)

Lemma user_update_users id data db db' updated :
  user_update id data db = (db', Ok updated) →
  users db'
  = (λ v, if decide (u_id v = id) then apply_data data v else v) <$> users db.
Proof.
  unfold user_update. intros Hupdate.
  destruct (filter (λ u, u_id u = id) (users db)); [done|].
  case_decide; by simplify_eq.
Qed.

Lemma user_update_Err id data db db' e :
  user_update id data db = (db', Err e) → db' = db.
Proof.
  unfold user_update. intros Hupdate.
  destruct (filter (λ u, u_id u = id) (users db)); [by simplify_eq|].
  case_decide; by simplify_eq.
Qed.

Section updating.
Context (assertValidEmail : string → bool)
  (assertValidPassword : string → Z → Z → bool)
  (password_max password_min : Z) (encryptPassword : string → string).

Abbreviation update_user :=
  (updateUser assertValidEmail assertValidPassword password_max password_min
     encryptPassword).

(** X24. [updateUser] never touches the registry or the ledger, and a call
    that fails leaves the store as it was.  A call that succeeds leaves the
    rows of the other accounts in place as they were; when the payload has a
    password, that password has passed the validator and every row with the
    id of the call holds its hash, not the password. *)
Theorem updateUser_effect {A : Type}
    (id : string) (data : UserData) (select : UserRow → A) (db : Db) :
  features (fst (update_user id data select db)) = features db
  ∧ userFeatures (fst (update_user id data select db)) = userFeatures db
  ∧ (∀ e, snd (update_user id data select db) = Err e →
          fst (update_user id data select db) = db)
  ∧ (is_Ok (snd (update_user id data select db)) →
     (∀ (i : nat) (u : UserRow),
        users db !! i = Some u → u_id u ≠ id →
        users (fst (update_user id data select db)) !! i = Some u)
     ∧ ∀ p, truthy_string (d_password data) = Some p →
            assertValidPassword p password_max password_min = true
            ∧ ∀ u, u ∈ users (fst (update_user id data select db)) → u_id u = id →
                   u_password u = Some (encryptPassword p)).
Proof.
  remember (update_user id data select db) as call eqn:Hcall.
  unfold updateUser, tx_bind in Hcall.
  assert (∀ data',
            (∀ p, truthy_string (d_password data) = Some p →
                  assertValidPassword p password_max password_min = true
                  ∧ d_password data' = Some (encryptPassword p)) →
            ∀ call',
              call' = (let (db', r) := user_update id data' db in
                       match r with
                       | Ok a => tx_ret (select a) db'
                       | Err e => (db', Err e)
                       end) →
              features (fst call') = features db
              ∧ userFeatures (fst call') = userFeatures db
              ∧ (∀ e, snd call' = Err e → fst call' = db)
              ∧ (is_Ok (snd call') →
                 (∀ (i : nat) (u : UserRow),
                    users db !! i = Some u → u_id u ≠ id →
                    users (fst call') !! i = Some u)
                 ∧ ∀ p, truthy_string (d_password data) = Some p →
                        assertValidPassword p password_max password_min = true
                        ∧ ∀ u, u ∈ users (fst call') → u_id u = id →
                               u_password u = Some (encryptPassword p))) as Hwrite.
  { intros data' Hpw call' ->.
    destruct (user_update id data' db) as [db' [updated|e]] eqn:Hu; cbn [fst snd tx_ret].
    - destruct (user_update_store _ _ _ _ _ Hu) as (Hf & Hl & _).
      pose proof (user_update_users _ _ _ _ _ Hu) as Husers.
      split_and!; [done..|]. intros _. split.
      + intros i u Hi Hne. rewrite Husers, list_lookup_fmap, Hi. simpl.
        by rewrite decide_False.
      + intros p Hp. destruct (Hpw p Hp) as [Hok Hhash]. split; [done|].
        intros u Hin Hid. rewrite Husers in Hin.
        apply list_elem_of_fmap in Hin as (v & -> & _).
        case_decide as Hd; [|done]. simpl. by rewrite Hhash.
    - apply user_update_Err in Hu as ->. split_and!; [done..|]. intros []. }
  assert (features db = features db
          ∧ userFeatures db = userFeatures db
          ∧ (∀ e : Error, Err (A:=A) e = Err e → db = db)) as Hsame by done.
  destruct (truthy_string (d_password data)) as [p|] eqn:Hp.
  - destruct (assertValidPassword p password_max password_min) eqn:Hok.
    + cbn [tx_ret set_password d_email] in Hcall.
      destruct (truthy_string (d_email data)) as [email|]. 
      * destruct (assertValidEmail email).
        -- unfold tx_read in Hcall.
           destruct (count_email_taken email id db).
           ++ apply (Hwrite (set_password (encryptPassword p) data)); [|done].
              intros p' ?; by simplify_eq.
           ++ subst call. cbn [fst snd tx_throw]. split_and!; [done..|]. intros [].
        -- subst call. cbn [fst snd tx_throw]. split_and!; [done..|]. intros [].
      * apply (Hwrite (set_password (encryptPassword p) data)); [|done].
        intros p' ?; by simplify_eq.
    + subst call. cbn [fst snd tx_throw]. split_and!; [done..|]. intros [].
  - cbn [tx_ret] in Hcall.
    destruct (truthy_string (d_email data)) as [email|].
    + destruct (assertValidEmail email).
      * unfold tx_read in Hcall.
        destruct (count_email_taken email id db).
        -- by apply (Hwrite data).
        -- subst call. cbn [fst snd tx_throw]. split_and!; [done..|]. intros [].
      * subst call. cbn [fst snd tx_throw]. split_and!; [done..|]. intros [].
    + by apply (Hwrite data).
Qed.
End updating.

(** ** Emails *)

Lemma lower_ascii_idempotent c : lower_ascii (lower_ascii c) = lower_ascii c.
Proof. destruct c as [[] [] [] [] [] [] [] []]; vm_compute; reflexivity. Qed.

Lemma lower_idempotent s : lower (lower s) = lower s.
Proof.
  induction s as [|c s IH]; [done|]. simpl. by rewrite lower_ascii_idempotent, IH.
Qed.

(** X25. The lookup of an account by email does not depend on the case of
    the letters: [lower] is idempotent, and [findUserByEmail] gives the same
    answer for two emails that [lower] makes equal, and so for an email and
    its lower-case form, when the validator treats both alike. *)
Theorem findUserByEmail_case_insensitive
    (assertValidEmail : string → bool) (email email' : string) (db : Db) :
  lower (lower email) = lower email
  ∧ (lower email = lower email' →
     assertValidEmail email = assertValidEmail email' →
     findUserByEmail assertValidEmail email db
     = findUserByEmail assertValidEmail email' db).
Proof.
  split; [apply lower_idempotent|].
  intros Hlower Hvalid. unfold findUserByEmail. by rewrite Hvalid, Hlower.
Qed.

(** X26. The name [email.split('@')[0]] gives a new account is the part of
    the email before its first '@': the email is that part followed by
    nothing or by a rest that starts with '@', and the part has no '@'. *)
Theorem before_at_prefix (email : string) :
  ("@"%char ∉ String.list_ascii_of_string (before_at email))
  ∧ ∃ rest,
      email = String.append (before_at email) rest
      ∧ (rest = "" ∨ ∃ t, rest = String "@"%char t).
Proof.
  induction email as [|c s [IHno (rest & IHeq & IHrest)]]; simpl.
  - split; [apply not_elem_of_nil|]. exists "". by split; [|left].
  - destruct (Ascii.eqb_spec c "@"%char) as [->|Hne]; simpl.
    + split; [apply not_elem_of_nil|]. exists (String "@"%char s).
      split; [done|]. right. by exists s.
    + split.
      * intros [Heq|Hin]%elem_of_cons; [congruence|done].
      * exists rest. split; [|done].
        change (String c s = String c (String.append (before_at s) rest)).
        by rewrite <- IHeq.
Qed.

(** ** The further properties at concrete inputs *)

Lemma fulfillUser_repeated_witness :
  let db' := fst (fulfillUser (λ _, true) (λ _ _ _, true) 32 8 (λ p, p) false
                    "zed@example.com" UserGroup.User verified_sign_in "u9"
                    (λ k, 30 + Z.of_nat k) catalog_db) in
  fulfillUser (λ _, true) (λ _ _ _, true) 32 8 (λ p, p) false
    "zed@example.com" UserGroup.Admin verified_sign_in "u10" (λ _, 50) db'
  = (db', Ok (mkUser "u9" "zed" "zed@example.com" None (Some 5) None true 30)).
Proof.
  apply (fulfillUser_repeated (λ _, true) (λ _ _ _, true) 32 8 (λ p, p) false
           "zed@example.com" UserGroup.User UserGroup.Admin verified_sign_in
           "u9" "u10" (λ k, 30 + Z.of_nat k) (λ _, 50) catalog_db).
  - reflexivity.
  - by split_and!.
  - discriminate.
  - vm_compute. reflexivity.
Defined.

Lemma createUser_failure_modes_witness :
  let call := createUser (λ _, true) (λ _ _ _, true) 32 8 example_hash true
                zed_without_password [FeatureType.Admin] "u9" (λ _, 30) two_versions_db in
  (fst call = two_versions_db
   ∧ (FeatureNotFound "administrator" = InvalidEmail
      ∨ FeatureNotFound "administrator" = InvalidPassword
      ∨ FeatureNotFound "administrator" = EmailAlreadyUsed))
  ∨ (∃ f, f ∈ [FeatureType.Admin]
          ∧ FeatureNotFound "administrator" = FeatureNotFound (FeatureType.value f))
    ∧ users (fst call)
      = users two_versions_db
        ++ [created_row example_hash true zed_without_password "u9" 30]
    ∧ userFeatures (fst call) = userFeatures two_versions_db.
Proof.
  apply (createUser_failure_modes (λ _, true) (λ _ _ _, true) 32 8 example_hash true
           zed_without_password [FeatureType.Admin] "u9" (λ _, 30) two_versions_db
           (FeatureNotFound "administrator")).
  vm_compute. reflexivity.
Defined.

Lemma createUser_then_find_witness :
  let db' := fst (createUser (λ _, true) (λ _ _ _, true) 32 8 example_hash true
                    zed_without_password [FeatureType.PersonalWorkspace] "u9" (λ _, 30)
                    catalog_db) in
  findUserByEmail (λ _, true) "zed@EXAMPLE.com" db'
  = (db', Ok (Some (select_default
                      (created_row example_hash true zed_without_password "u9" 30)))).
Proof.
  apply (createUser_then_find (λ _, true) (λ _ _ _, true) 32 8 example_hash true
           zed_without_password [FeatureType.PersonalWorkspace] "u9" (λ _, 30) catalog_db).
  - vm_compute. reflexivity.
  - reflexivity.
  - vm_compute. reflexivity.
Defined.

Lemma createUser_keeps_emails_unique_witness :
  emails_unique
    (fst (createUser (λ _, true) (λ _ _ _, true) 32 8 example_hash true
            zed_without_password [FeatureType.PersonalWorkspace] "u9" (λ _, 30)
            fulfill_db)).
Proof.
  apply (createUser_keeps_emails_unique (λ _, true) (λ _ _ _, true) 32 8 example_hash
           true zed_without_password [FeatureType.PersonalWorkspace] "u9" (λ _, 30)
           fulfill_db).
  unfold emails_unique. apply (bool_decide_unpack _). vm_compute. exact I.
Defined.

Lemma signIn_after_createUser_witness :
  let db' := fst (createUser (λ _, true) (λ _ _ _, true) 32 8 example_hash true
                    zed_with_password [FeatureType.PersonalWorkspace] "u9" (λ _, 30)
                    catalog_db) in
  let row := created_row example_hash true zed_with_password "u9" 30 in
  u_password row = Some (example_hash "secret12")
  ∧ signIn (λ _, true) example_verify "zed@example.com" "secret12" db'
    = (db', if example_verify "secret12" (example_hash "secret12") then SignedIn row
            else WrongSignInCredentials).
Proof.
  apply (signIn_after_createUser (λ _, true) (λ _ _ _, true) 32 8 example_hash true
           example_verify zed_with_password [FeatureType.PersonalWorkspace] "u9" (λ _, 30)
           catalog_db _
           (select_default (created_row example_hash true zed_with_password "u9" 30))).
  - vm_compute. reflexivity.
  - reflexivity.
  - discriminate.
  - reflexivity.
  - vm_compute. reflexivity.
Defined.

Lemma signIn_sound_witness :
  let db' := fst (createUser (λ _, true) (λ _ _ _, true) 32 8 example_hash true
                    zed_with_password [FeatureType.PersonalWorkspace] "u9" (λ _, 30)
                    catalog_db) in
  let row := created_row example_hash true zed_with_password "u9" 30 in
  row ∈ users db'
  ∧ lower (u_email row) = lower "zed@example.com"
  ∧ ∃ hash, u_password row = Some hash ∧ hash ≠ ""
            ∧ example_verify "secret12" hash = true.
Proof.
  refine (proj2 (proj2 (signIn_sound (λ _, true) example_verify "zed@example.com"
                          "secret12" _) _ _)).
  vm_compute. reflexivity.
Defined.

Lemma signIn_without_password_witness :
  let db' := fst (createUser (λ _, true) (λ _ _ _, true) 32 8 example_hash true
                    zed_without_password [FeatureType.PersonalWorkspace] "u9" (λ _, 30)
                    catalog_db) in
  signIn (λ _, true) example_verify "zed@example.com" "secret12" db'
  = (db', WrongSignInMethod).
Proof.
  apply (signIn_without_password (λ _, true) (λ _ _ _, true) 32 8 example_hash true
           example_verify zed_without_password [FeatureType.PersonalWorkspace] "u9" (λ _, 30)
           catalog_db _
           (select_default (created_row example_hash true zed_without_password "u9" 30))).
  - vm_compute. reflexivity.
  - reflexivity.
  - reflexivity.
  - vm_compute. reflexivity.
Defined.

Lemma updateUser_effect_witness :
  Forall (λ u, u_id u = "u1" → u_password u = Some (example_hash "secret34"))
    (users (fst (updateUser (λ _, true) (λ _ _ _, true) 32 8 example_hash
                   "u1" new_password select_default fulfill_db))).
Proof.
  apply Forall_forall.
  refine (proj2 (proj2 (proj2 (proj2 (proj2
            (updateUser_effect (λ _, true) (λ _ _ _, true) 32 8 example_hash
               "u1" new_password select_default fulfill_db))) _) "secret34" _)).
  - vm_compute. exact I.
  - reflexivity.
Defined.

Lemma findUserByEmail_case_insensitive_witness :
  findUserByEmail (λ _, true) "Ann@Example.com" fulfill_db
  = findUserByEmail (λ _, true) "ann@example.com" fulfill_db.
Proof.
  apply (proj2 (findUserByEmail_case_insensitive (λ _, true) "Ann@Example.com"
                  "ann@example.com" fulfill_db)).
  - vm_compute. reflexivity.
  - reflexivity.
Defined.
